(** * Token Creator API: CREATE2 address derivation and vanity salt search

    A shallow embedding of the core of [server.js]: the address formula
    [calculateCREATE2Address], the search loop [findSaltForTermination], and
    the two request handlers that validate a termination
    ([/calculate-address] and [/validate-termination]).

    JavaScript strings are lists of characters, byte arrays ([Uint8Array],
    [Buffer]) are lists of integers in [0, 256), and JavaScript integers are
    [Z].  A JavaScript number that need not be an integer (the
    [maxAttempts] of a request, the cap of the search) is a rational [Q]:
    every finite double is one, and [<] and [Math.min] are exact on them.
    A field of a request body is absent or a string; [maxAttempts] is absent
    or a number.  The library calls of the source
    ([ethers.utils.concat], [ethers.utils.keccak256],
    [ethers.utils.getAddress], [crypto.randomBytes], [setImmediate]) are
    modelled in their own modules below; the random source and the events
    of the event loop are inputs of the model ([Env]), and the reads and
    yields a call makes are counted in an explicit [World]. *)

From Stdlib Require Import String.
From Stdlib Require Import ZArith List Ascii Bool Lia Arith.
From Stdlib Require Import QArith_base Qround.
Import ListNotations.

Local Open Scope Z_scope.

(** ** Keccak-256

    The hash behind [ethers.utils.keccak256]: the Keccak sponge with rate
    1088 bits (136 bytes), capacity 512, output 256 bits, and the original
    Keccak padding (first padding byte [0x01]).  Lanes are 64-bit integers;
    the state is the list of its 25 lanes, lane (x, y) at index [x + 5 * y]. *)
Module Keccak.

(** The 64-bit mask [2^64 - 1]. *)
Definition mask64 : Z := 0xFFFFFFFFFFFFFFFF.

Definition rotl64 (x : Z) (n : Z) : Z :=
  Z.lor (Z.land (Z.shiftl x n) mask64) (Z.shiftr x (64 - n)).

Definition not64 (x : Z) : Z := Z.lxor x mask64.

Definition state : Type := list Z.

Definition lane (st : state) (i : nat) : Z := nth i st 0.

Definition lane_xy (st : state) (x y : nat) : Z :=
  lane st ((x mod 5) + 5 * (y mod 5))%nat.

Definition round_constants : list Z :=
  [ 0x0000000000000001; 0x0000000000008082; 0x800000000000808A;
    0x8000000080008000; 0x000000000000808B; 0x0000000080000001;
    0x8000000080008081; 0x8000000000008009; 0x000000000000008A;
    0x0000000000000088; 0x0000000080008009; 0x000000008000000A;
    0x000000008000808B; 0x800000000000008B; 0x8000000000008089;
    0x8000000000008003; 0x8000000000008002; 0x8000000000000080;
    0x000000000000800A; 0x800000008000000A; 0x8000000080008081;
    0x8000000000008080; 0x0000000080000001; 0x8000000080008008 ].

(** Rotation offsets, indexed like the state ([x + 5 * y]). *)
Definition rotation_offsets : list Z :=
  [  0;  1; 62; 28; 27;
    36; 44;  6; 55; 20;
     3; 10; 43; 25; 39;
    41; 45; 15; 21;  8;
    18;  2; 61; 56; 14 ].

Definition positions : list nat := seq 0 25.

Definition theta (st : state) : state :=
  let C := map (fun x => fold_left Z.lxor (map (lane_xy st x) (seq 0 5)) 0)
               (seq 0 5) in
  let D := map (fun x => Z.lxor (nth ((x + 4) mod 5) C 0)
                                (rotl64 (nth ((x + 1) mod 5) C 0) 1))
               (seq 0 5) in
  map (fun i => Z.lxor (lane st i) (nth (i mod 5) D 0)) positions.

(** rho and pi together: lane (x, y) is rotated and moved to
    (y, 2x + 3y); read backwards, position (X, Y) receives the lane at
    (X + 3Y, X). *)
Definition rho_pi (st : state) : state :=
  map (fun i =>
         let X := (i mod 5)%nat in
         let Y := (i / 5)%nat in
         let src := (((X + 3 * Y) mod 5) + 5 * X)%nat in
         rotl64 (lane st src) (nth src rotation_offsets 0))
      positions.

Definition chi (st : state) : state :=
  map (fun i =>
         let x := (i mod 5)%nat in
         let y := (i / 5)%nat in
         Z.lxor (lane_xy st x y)
                (Z.land (not64 (lane_xy st (x + 1) y)) (lane_xy st (x + 2) y)))
      positions.

Definition iota (rc : Z) (st : state) : state :=
  match st with
  | [] => []
  | l0 :: rest => Z.lxor l0 rc :: rest
  end.

Definition round (st : state) (rc : Z) : state :=
  iota rc (chi (rho_pi (theta st))).

Definition keccak_f (st : state) : state :=
  fold_left round round_constants st.

Definition rate_bytes : nat := 136.

(** Little-endian value of (at most) eight bytes. *)
Fixpoint le_value (bs : list Z) : Z :=
  match bs with
  | [] => 0
  | b :: rest => b + 256 * le_value rest
  end.

Definition xor_block (st : state) (block : list Z) : state :=
  map (fun i =>
         if (i <? 17)%nat
         then Z.lxor (lane st i) (le_value (firstn 8 (skipn (8 * i) block)))
         else lane st i)
      positions.

Definition pad (msg : list Z) : list Z :=
  let q := (rate_bytes - (length msg mod rate_bytes))%nat in
  if (q =? 1)%nat then msg ++ [0x81]
  else msg ++ [0x01] ++ repeat 0 (q - 2) ++ [0x80].

Fixpoint absorb (blocks : nat) (st : state) (data : list Z) : state :=
  match blocks with
  | O => st
  | S n =>
      absorb n (keccak_f (xor_block st (firstn rate_bytes data)))
             (skipn rate_bytes data)
  end.

Definition squeeze_byte (st : state) (k : nat) : Z :=
  Z.land (Z.shiftr (lane st (k / 8)) (8 * Z.of_nat (k mod 8))) 255.

(** The 32-byte digest. *)
Definition keccak_256 (msg : list Z) : list Z :=
  let padded := pad msg in
  let st := absorb (length padded / rate_bytes) (repeat 0 25) padded in
  map (squeeze_byte st) (seq 0 32).

End Keccak.

(** ** JavaScript values

    Strings are lists of characters.  [toLowerCase] and [toUpperCase] act on
    the ASCII letters; every string that reaches them in the modelled code
    is either compared against hexadecimal text or filtered through
    [/[^0-9a-f]/g] afterwards, so the mapping of other characters cannot
    be observed. *)
Module JS.

Definition string : Type := list ascii.

Definition str (s : String.string) : string := String.list_ascii_of_string s.
Arguments str s%_string.

Definition charCode (c : ascii) : Z := Z.of_N (N_of_ascii c).

Definition in_range (lo hi c : ascii) : bool :=
  (charCode lo <=? charCode c) && (charCode c <=? charCode hi).

Definition char_toLowerCase (c : ascii) : ascii :=
  if in_range "A" "Z" c then ascii_of_N (N_of_ascii c + 32) else c.

Definition char_toUpperCase (c : ascii) : ascii :=
  if in_range "a" "z" c then ascii_of_N (N_of_ascii c - 32) else c.

Definition toLowerCase (s : string) : string := map char_toLowerCase s.

Definition string_eqb (s t : string) : bool :=
  if list_eq_dec ascii_dec s t then true else false.

(** [s.endsWith(t)] *)
Definition endsWith (s t : string) : bool :=
  (length t <=? length s)%nat
  && string_eqb (skipn (length s - length t) s) t.

(** [s.slice(-n)]: the last [n] characters (all of [s] when it is shorter). *)
Definition slice_last (n : nat) (s : string) : string :=
  skipn (length s - n) s.

(** [s.substring(0, n)] and [s.substring(n)] *)
Definition substring_to (n : nat) (s : string) : string := firstn n s.
Definition substring_from (n : nat) (s : string) : string := skipn n s.

(** [arr[i] = v] on an array that already has index [i]. *)
Fixpoint set_index {A} (i : nat) (v : A) (arr : list A) : list A :=
  match arr, i with
  | [], _ => []
  | _ :: rest, O => v :: rest
  | a :: rest, S j => a :: set_index j v rest
  end.

(** Character classes of the regular expressions in the source. *)
Definition is_digit (c : ascii) : bool := in_range "0" "9" c.
Definition is_af (c : ascii) : bool := in_range "a" "f" c.
Definition is_AF (c : ascii) : bool := in_range "A" "F" c.

(** [[0-9a-f]] *)
Definition is_lower_hex (c : ascii) : bool := is_digit c || is_af c.
(** [[0-9a-fA-F]] *)
Definition is_hex (c : ascii) : bool := is_digit c || is_af c || is_AF c.

(** Thrown values.  [ArgumentError] is the error of the ethers logger
    ([INVALID_ARGUMENT]) with its reason and offending value; [Error] is
    [new Error(message)]. *)
Inductive exn : Type :=
| ArgumentError (reason : string) (value : string)
| Error (message : string).

(** Numbers.  [x < y] and [Math.min(x, y)] on finite numbers. *)
Definition number : Type := Q.

Definition less_than (x y : number) : bool :=
  Qnum x * QDen y <? Qnum y * QDen x.

Definition Math_min (x y : number) : number :=
  if less_than y x then y else x.

Inductive result (A : Type) : Type :=
| Ok (a : A)
| Throw (e : exn).
Arguments Ok {A} a.
Arguments Throw {A} e.

Definition bind {A B} (r : result A) (k : A -> result B) : result B :=
  match r with
  | Ok a => k a
  | Throw e => Throw e
  end.

End JS.

Import JS.

Notation "'try' x <- c1 ;; c2" :=
  (JS.bind c1 (fun x => c2))
    (at level 61, x name, c1 at next level, right associativity).

(** ** Hexadecimal text

    The lower-case rendering shared by the hash library under
    [ethers.utils.keccak256] and by Node's [buffer.toString('hex')]. *)
Module Hex.

Definition hex_chars : string := str "0123456789abcdef".

Definition hex_digit (n : Z) : ascii := nth (Z.to_nat n) hex_chars "0"%char.

(** Lower-case hexadecimal text of a byte array, two characters a byte. *)
Definition hex_of_bytes (bs : list Z) : string :=
  flat_map (fun b => [hex_digit (Z.shiftr b 4); hex_digit (Z.land b 15)]) bs.

End Hex.

(** ** The ethers utilities used by the source (ethers v5, [ethers.utils]) *)
Module Ethers.

Import Hex.

(** Value of one hexadecimal digit, as [parseInt(_, 16)] reads it. *)
Definition hex_value (c : ascii) : Z :=
  if is_digit c then charCode c - 48
  else if is_af c then charCode c - 87
  else if is_AF c then charCode c - 55
  else 0.

(** [isHexString(value)]: [/^0x[0-9A-Fa-f]*$/] *)
Definition isHexString (value : string) : bool :=
  match value with
  | "0"%char :: "x"%char :: digits => forallb is_hex digits
  | _ => false
  end.

(** [isHexString(value, length)] *)
Definition isHexStringOfLength (value : string) (len : nat) : bool :=
  isHexString value && (length value =? 2 + 2 * len)%nat.

(** The loop of [arrayify] over a hex text of even length:
    [parseInt(hex.substring(i, i + 2), 16)] for [i = 0, 2, ...]. *)
Fixpoint parse_pairs (hex : string) : list Z :=
  match hex with
  | c1 :: c2 :: rest => (16 * hex_value c1 + hex_value c2) :: parse_pairs rest
  | _ => []
  end.

(** [arrayify(value)] on a string, without options. *)
Definition arrayify (value : string) : result (list Z) :=
  if isHexString value then
    let hex := substring_from 2 value in
    if Nat.eqb (length hex mod 2) 0 then Ok (parse_pairs hex)
    else Throw (ArgumentError (str "hex data is odd-length") value)
  else Throw (ArgumentError (str "invalid arrayify value") value).

(** [concat(items)]: every item through [arrayify], in order, then joined. *)
Fixpoint concat (items : list string) : result (list Z) :=
  match items with
  | [] => Ok []
  | item :: rest =>
      try bytes <- arrayify item ;;
      try tail <- concat rest ;;
      Ok (bytes ++ tail)
  end.

(** [keccak256(data)] on a byte array: ["0x"] and the digest in hex. *)
Definition keccak256 (data : list Z) : string :=
  str "0x" ++ hex_of_bytes (Keccak.keccak_256 data).

(** One step of the loop of [getChecksumAddress], at the even index [i]. *)
Definition checksum_step (hashed : list Z) (chars : string) (i : nat)
  : string :=
  let h := nth (i / 2) hashed 0 in
  let chars1 :=
    if 8 <=? Z.shiftr h 4
    then set_index i (char_toUpperCase (nth i chars "0"%char)) chars
    else chars in
  if 8 <=? Z.land h 15
  then set_index (i + 1) (char_toUpperCase (nth (i + 1) chars1 "0"%char)) chars1
  else chars1.

Definition getChecksumAddress (address : string) : result string :=
  if isHexStringOfLength address 20 then
    let address := toLowerCase address in
    let chars := substring_from 2 address in
    let expanded := map charCode (firstn 40 chars) in
    try hashed <- arrayify (keccak256 expanded) ;;
    let chars :=
      fold_left (checksum_step hashed) (map (fun k => 2 * k)%nat (seq 0 20))
                chars in
    Ok (str "0x" ++ chars)
  else Throw (ArgumentError (str "invalid address") address).

(** [/^(0x)?[0-9a-fA-F]{40}$/] *)
Definition is_plain_address (address : string) : bool :=
  (Nat.eqb (length address) 40 && forallb is_hex address)
  || isHexStringOfLength address 20.

(** [/([A-F].*[a-f])|([a-f].*[A-F])/], on text without line breaks. *)
Definition is_mixed_case (address : string) : bool :=
  existsb is_AF address && existsb is_af address.

(** [getAddress(address)].  The source's middle branch, for ICAP
    ([XE..]) addresses, is left out: such text is rejected here with the
    final error.  No caller in [server.js] can reach it, since the only
    argument ever passed starts with ["0x"]. *)
Definition getAddress (address : string) : result string :=
  if is_plain_address address then
    let address :=
      if string_eqb (substring_to 2 address) (str "0x") then address
      else str "0x" ++ address in
    try result <- getChecksumAddress address ;;
    if is_mixed_case address && negb (string_eqb result address)
    then Throw (ArgumentError (str "bad address checksum") address)
    else Ok result
  else Throw (ArgumentError (str "invalid address") address).

End Ethers.

(** ** The message of a thrown error *)

(** [JSON.stringify(s)] of a string: the text between double quotes, with
    the quote and the backslash escaped and the control characters written
    as [\b], [\t], [\n], [\f], [\r] or [\u00XX]. *)
Definition double_quote : ascii := "034"%char.

Definition json_escape (c : ascii) : string :=
  let code := charCode c in
  if code =? 34 then ["\"%char; double_quote]
  else if code =? 92 then ["\"%char; "\"%char]
  else if code =? 8 then str "\b"
  else if code =? 9 then str "\t"
  else if code =? 10 then str "\n"
  else if code =? 12 then str "\f"
  else if code =? 13 then str "\r"
  else if code <? 32
       then str "\u00"
            ++ [Hex.hex_digit (code / 16); Hex.hex_digit (code mod 16)]
       else [c].

Definition JSON_stringify (s : string) : string :=
  [double_quote] ++ flat_map json_escape s ++ [double_quote].

(** Where ethers throws an argument error of a given reason: the name it
    gives the argument and the package whose logger throws.  [arrayify]
    (package bytes) names its argument [value]; [getAddress] and
    [getChecksumAddress] (package address) name theirs [address]. *)
Definition throw_site (reason : string) : string * string :=
  if string_eqb reason (str "invalid address")
     || string_eqb reason (str "bad address checksum")
  then (str "address", str "address")
  else (str "value", str "bytes").

(** [error.message].  The message of an ethers argument error is built by
    its logger:
    [reason (argument="name", value=JSON, code=INVALID_ARGUMENT, version=package/x.y.z)],
    where [x.y.z] is the version of the installed package, given by
    [version]. *)
Definition message (version : string -> string) (e : exn) : string :=
  match e with
  | ArgumentError reason value =>
      let (argument, package) := throw_site reason in
      reason ++ str " (argument=" ++ JSON_stringify argument
             ++ str ", value=" ++ JSON_stringify value
             ++ str ", code=INVALID_ARGUMENT, version="
             ++ package ++ str "/" ++ version package ++ str ")"
  | Error m => m
  end.

(** ** server.js *)

(** [calculateCREATE2Address(deployerAddress, salt, bytecodeHash)] *)
Definition calculateCREATE2Address (deployerAddress salt bytecodeHash : string)
  : result string :=
  let create2Prefix := str "0xff" in
  try concatenated <-
    Ethers.concat [create2Prefix; deployerAddress; salt; bytecodeHash] ;;
  let hash := Ethers.keccak256 concatenated in
  Ethers.getAddress (str "0x" ++ slice_last 40 hash).

(** ** The environment of a request

    [entropy k] is what the operating system's random source hands out at
    its [k]-th read, as a number; [cancel_signal k] tells whether an
    external cancellation (client disconnect, shutdown) was signalled while
    the search was parked at its [k]-th yield to the event loop;
    [logger_version p] is the version of the installed ethers package [p],
    which its logger writes into error messages.  A [World] counts the
    reads and the yields made so far. *)
Record Env : Type := mkEnv {
  entropy : nat -> Z;
  cancel_signal : nat -> bool;
  logger_version : string -> string
}.

Record World : Type := mkWorld {
  draws : nat;
  yields : nat
}.

Module Node.

(** The [size] bytes of [z mod 256^size], most significant first. *)
Definition be_bytes (size : nat) (z : Z) : list Z :=
  map (fun i => Z.land (Z.shiftr z (8 * Z.of_nat (size - 1 - i))) 255)
      (seq 0 size).

(** [crypto.randomBytes(size)] *)
Definition randomBytes (env : Env) (size : nat) (w : World)
  : list Z * World :=
  (be_bytes size (entropy env (draws w)),
   {| draws := S (draws w); yields := yields w |}).

(** [buffer.toString('hex')] *)
Definition toString_hex (buffer : list Z) : string := Hex.hex_of_bytes buffer.

(** [await new Promise(resolve => setImmediate(resolve))]: the task is
    parked for one turn of the event loop and resumed by the timer
    callback, whatever was signalled during that turn. *)
Definition setImmediate_turn (signalled : bool) (w : World) : World :=
  {| draws := draws w; yields := S (yields w) |}.

End Node.

(** How the promise of [findSaltForTermination] settles. *)
Inductive Outcome : Type :=
| Resolved (salt address : string) (attempts : Z)
| Rejected (e : exn).

Definition max_attempts_message : string :=
  str "Maximum attempts reached without finding suitable salt".

(** The [while (attempts < maxAttempts)] loop.  The cap is a number, the
    counter an integer.  [fuel] bounds the number of guard evaluations;
    [None] means the fuel ran out. *)
Fixpoint search_loop (env : Env) (fuel : nat)
         (deployerAddress bytecodeHash termination : string)
         (maxAttempts : number) (attempts : Z) (w : World)
  : option (Outcome * World) :=
  match fuel with
  | O => None
  | S fuel' =>
      if less_than (inject_Z attempts) maxAttempts then
        let (randomBytes, w1) := Node.randomBytes env 32 w in
        let salt := str "0x" ++ Node.toString_hex randomBytes in
        match calculateCREATE2Address deployerAddress salt bytecodeHash with
        | Throw e => Some (Rejected e, w1)
        | Ok address =>
            if endsWith (toLowerCase address) termination then
              Some (Resolved salt address (attempts + 1), w1)
            else
              let attempts := attempts + 1 in
              let w2 :=
                if Z.rem attempts 1000 =? 0
                then Node.setImmediate_turn (cancel_signal env (yields w1)) w1
                else w1 in
              search_loop env fuel' deployerAddress bytecodeHash termination
                          maxAttempts attempts w2
        end
      else Some (Rejected (Error max_attempts_message), w)
  end.

(** [findSaltForTermination(deployerAddress, bytecodeHash,
    desiredTermination, maxAttempts = 1000000)] *)
Definition findSaltForTermination (env : Env)
           (deployerAddress bytecodeHash desiredTermination : string)
           (maxAttempts : option number) (w : World)
  : option (Outcome * World) :=
  let maxAttempts :=
    match maxAttempts with Some m => m | None => inject_Z 1000000 end in
  let termination := toLowerCase desiredTermination in
  let attempts := 0 in
  search_loop env (S (Z.to_nat (Qceiling maxAttempts))) deployerAddress
              bytecodeHash termination maxAttempts attempts w.

(** *** Request handlers *)

(** The JSON bodies the two handlers send. *)
Inductive Json : Type :=
| Failure (error : string)
  (* { success: false, error } *)
| Mined (salt address : string) (attempts : Z) (termination : string)
  (* { success: true, salt, address, attempts, termination } *)
| Report (valid : bool) (cleaned difficulty estimatedTime : string)
         (maxLength : Z).
  (* { success: true, valid, cleaned, difficulty, estimatedTime, maxLength } *)

Record Response : Type := mkResponse {
  status : Z;
  json : Json
}.

(** [!field] for a field that is absent or a string. *)
Definition falsy (field : option string) : bool :=
  match field with
  | None => true
  | Some [] => true
  | Some _ => false
  end.

Definition text (field : option string) : string :=
  match field with
  | Some s => s
  | None => []
  end.

(** [s.toLowerCase().replace(/[^0-9a-f]/g, '')] *)
Definition clean (s : string) : string := filter is_lower_hex (toLowerCase s).

(** The body of [POST /calculate-address]; [maxAttempts] is a number when
    present, an integer or not. *)
Record CalculateAddressRequest : Type := mkCalculateAddressRequest {
  req_deployerAddress : option string;
  req_bytecodeHash : option string;
  req_desiredTermination : option string;
  req_maxAttempts : option number
}.

Definition post_calculate_address (env : Env) (body : CalculateAddressRequest)
           (w : World) : option (Response * World) :=
  let deployerAddress := req_deployerAddress body in
  let bytecodeHash := req_bytecodeHash body in
  let desiredTermination := req_desiredTermination body in
  let maxAttempts :=
    match req_maxAttempts body with
    | Some m => m
    | None => inject_Z 100000
    end in
  if falsy deployerAddress || falsy bytecodeHash || falsy desiredTermination
  then
    Some ({| status := 400;
             json := Failure (str "deployerAddress, bytecodeHash, and desiredTermination are required") |},
          w)
  else
    let cleanTermination := clean (text desiredTermination) in
    if (length cleanTermination =? 0)%nat || (8 <? length cleanTermination)%nat
    then
      Some ({| status := 400;
               json := Failure (str "Invalid termination. Must be 1-8 hexadecimal characters.") |},
            w)
    else
      match findSaltForTermination env (text deployerAddress)
                                   (text bytecodeHash) cleanTermination
                                   (Some (Math_min maxAttempts
                                                   (inject_Z 1000000))) w with
      | None => None
      | Some (Resolved salt address attempts, w') =>
          Some ({| status := 200;
                   json := Mined salt address attempts cleanTermination |},
                w')
      | Some (Rejected error, w') =>
          Some ({| status := 500;
                   json := Failure (message (logger_version env) error) |},
                w')
      end.

(** The body of [POST /validate-termination] has the one field
    [termination]. *)
Definition post_validate_termination (termination : option string)
  : Response :=
  if falsy termination then
    {| status := 400; json := Failure (str "termination is required") |}
  else
    let cleaned := clean (text termination) in
    let isValid :=
      (negb (Nat.eqb (length cleaned) 0) && forallb is_lower_hex cleaned)
      && (0 <? length cleaned)%nat && (length cleaned <=? 8)%nat in
    let '(difficulty, estimatedTime) :=
      if isValid then
        let attempts := 16 ^ Z.of_nat (length cleaned) in
        if attempts <? 256 then (str "Very Easy", str "Instant")
        else if attempts <? 4096 then (str "Easy", str "Few seconds")
        else if attempts <? 65536 then (str "Medium", str "Few minutes")
        else if attempts <? 1048576 then (str "Hard", str "Few hours")
        else (str "Very Hard", str "Days or weeks")
      else (str "Unknown", str "Unknown") in
    {| status := 200;
       json := Report isValid cleaned difficulty estimatedTime 8 |}.

(** ** The reference definitions the address formula is compared with *)
Module Reference.

(** The CREATE2 pre-image: [0xff || deployer || salt || initCodeHash]. *)
Definition create2_preimage (deployer salt initCodeHash : list Z) : list Z :=
  [0xff] ++ deployer ++ salt ++ initCodeHash.

(** The low [n] bytes of a digest. *)
Definition low_bytes (n : nat) (digest : list Z) : list Z :=
  skipn (length digest - n) digest.

Definition create2_raw_address (deployer salt initCodeHash : list Z)
  : list Z :=
  low_bytes 20 (Keccak.keccak_256 (create2_preimage deployer salt initCodeHash)).

(** The mixed-case checksum: a letter of the lower-case hex address is
    capitalised when the hex digit at the same position of the hash of
    that text is above 7; digits stay. *)
Fixpoint checksum_chars (hex_addr hashed_address : string) : string :=
  match hex_addr, hashed_address with
  | character :: cs, nibble :: ns =>
      (if is_af character && (7 <? Ethers.hex_value nibble)
       then char_toUpperCase character
       else character) :: checksum_chars cs ns
  | _, _ => []
  end.

Definition checksum_encode (addr : list Z) : string :=
  let hex_addr := Hex.hex_of_bytes addr in
  let hashed_address :=
    Hex.hex_of_bytes (Keccak.keccak_256 (map charCode hex_addr)) in
  str "0x" ++ checksum_chars hex_addr hashed_address.

Definition create2_address (deployer salt initCodeHash : list Z) : string :=
  checksum_encode (create2_raw_address deployer salt initCodeHash).

End Reference.

Definition is_byte (b : Z) : Prop := 0 <= b < 256.

(** ** Vocabulary for the search *)

(** The salt of the attempt that makes the [k]-th read of the random
    source. *)
Definition salt_at (env : Env) (k : nat) : string :=
  str "0x" ++ Node.toString_hex (Node.be_bytes 32 (entropy env k)).

(** The attempt at read [k] derives an address that does not end with
    [termination]. *)
Definition misses (env : Env) (deployerAddress bytecodeHash termination : string)
           (k : nat) : Prop :=
  exists address,
    calculateCREATE2Address deployerAddress (salt_at env k) bytecodeHash
    = Ok address
    /\ endsWith (toLowerCase address) termination = false.

(** The world after one read of the random source. *)
Definition after_draw (w : World) : World :=
  {| draws := S (draws w); yields := yields w |}.

(** The world after the counter reached [attempts]: every 1000 attempts the
    search yields. *)
Definition after_count (env : Env) (attempts : Z) (w : World) : World :=
  if Z.rem attempts 1000 =? 0
  then Node.setImmediate_turn (cancel_signal env (yields w)) w
  else w.

Definition is_argument_error (e : exn) : Prop :=
  match e with
  | ArgumentError _ _ => True
  | Error _ => False
  end.

(** A validated termination: 1 to 8 characters of [0-9a-f]. *)
Definition valid_termination (t : string) : Prop :=
  forallb is_lower_hex t = true /\ (1 <= length t <= 8)%nat.

(** A request body that passes the two checks of [/calculate-address]. *)
Definition accepted (body : CalculateAddressRequest) : Prop :=
  falsy (req_deployerAddress body) = false
  /\ falsy (req_bytecodeHash body) = false
  /\ falsy (req_desiredTermination body) = false
  /\ (1 <= length (clean (text (req_desiredTermination body))) <= 8)%nat.

(** ** Difficulty tiers *)

Inductive Tier : Type := VeryEasy | Easy | Medium | Hard | VeryHard.

Definition tier_rank (t : Tier) : nat :=
  match t with
  | VeryEasy => 0
  | Easy => 1
  | Medium => 2
  | Hard => 3
  | VeryHard => 4
  end.

Definition tier_label (t : Tier) : string :=
  match t with
  | VeryEasy => str "Very Easy"
  | Easy => str "Easy"
  | Medium => str "Medium"
  | Hard => str "Hard"
  | VeryHard => str "Very Hard"
  end.

Definition tier_time (t : Tier) : string :=
  match t with
  | VeryEasy => str "Instant"
  | Easy => str "Few seconds"
  | Medium => str "Few minutes"
  | Hard => str "Few hours"
  | VeryHard => str "Days or weeks"
  end.

(** The thresholds as the design states them, on the expected number of
    attempts. *)
Definition tier_of_attempts (expectedAttempts : Z) : Tier :=
  if expectedAttempts <? 2 ^ 8 then VeryEasy
  else if expectedAttempts <? 2 ^ 12 then Easy
  else if expectedAttempts <? 2 ^ 16 then Medium
  else if expectedAttempts <? 2 ^ 20 then Hard
  else VeryHard.

Definition difficulty_of (r : Response) : string :=
  match json r with
  | Report _ _ difficulty _ _ => difficulty
  | _ => []
  end.

(** ** Concrete requests used below *)
Module Example.

Definition deployer : string :=
  str "0xAb5801a7D398351b8bE11C439e05C5B3259aeC9B".

Definition zero_salt : string :=
  str "0x0000000000000000000000000000000000000000000000000000000000000000".

(** The Keccak-256 hash of empty bytecode. *)
Definition empty_code_hash : string :=
  str "0xc5d2460186f7233c927e7db2dcc703c0e500b653ca82273b7bfad8045d85a470".

(** A deployer address one byte short. *)
Definition short_deployer : string :=
  str "0xAb5801a7D398351b8bE11C439e05C5B3259aeC".

(** A random source that counts: its [k]-th read is the number [k]. *)
Definition counting : Env :=
  {| entropy := fun k => Z.of_nat k;
     cancel_signal := fun _ => false;
     logger_version := fun _ => str "5.7.0" |}.

(** A random source stuck at zero, in an environment where a cancellation
    is signalled at every turn of the event loop. *)
Definition stuck_cancelling : Env :=
  {| entropy := fun _ => 0;
     cancel_signal := fun _ => true;
     logger_version := fun _ => str "5.7.0" |}.

Definition start : World := {| draws := 0; yields := 0 |}.

Definition request (termination : string) (maxAttempts : Z)
  : CalculateAddressRequest :=
  {| req_deployerAddress := Some deployer;
     req_bytecodeHash := Some empty_code_hash;
     req_desiredTermination := Some termination;
     req_maxAttempts := Some (inject_Z maxAttempts) |}.

(** The same request with a cap that need not be an integer. *)
Definition request_number (termination : string) (maxAttempts : number)
  : CalculateAddressRequest :=
  {| req_deployerAddress := Some deployer;
     req_bytecodeHash := Some empty_code_hash;
     req_desiredTermination := Some termination;
     req_maxAttempts := Some maxAttempts |}.

End Example.

(** ** The network table and GET /networks *)
Module Networks.

(** [process.env]: a variable is unset or holds a string. *)
Definition ProcessEnv : Type := string -> option string.

(** [process.env.NAME || fallback] *)
Definition env_or (env : ProcessEnv) (name fallback : string) : string :=
  match env name with
  | Some (c :: s) => c :: s
  | _ => fallback
  end.

(** ['prefix' + process.env.NAME]: an unset variable is appended as the
    text ["undefined"]. *)
Definition append_env (prefix : string) (env : ProcessEnv) (name : string)
  : string :=
  prefix ++ match env name with
            | Some s => s
            | None => str "undefined"
            end.

Record Network : Type := mkNetwork {
  rpc : string;
  chainId : Z;
  explorer : string
}.

(** The object [networks], its keys in the order they are written. *)
Definition networks (env : ProcessEnv) : list (string * Network) :=
  [ (str "ethereum",
     {| rpc := env_or env (str "ETHEREUM_RPC")
                      (append_env (str "https://mainnet.infura.io/v3/") env
                                  (str "INFURA_API_KEY"));
        chainId := 1;
        explorer := str "https://etherscan.io" |});
    (str "ethereum-goerli",
     {| rpc := env_or env (str "GOERLI_RPC")
                      (append_env (str "https://goerli.infura.io/v3/") env
                                  (str "INFURA_API_KEY"));
        chainId := 5;
        explorer := str "https://goerli.etherscan.io" |});
    (str "bsc",
     {| rpc := env_or env (str "BSC_RPC")
                      (str "https://bsc-dataseed.binance.org");
        chainId := 56;
        explorer := str "https://bscscan.com" |});
    (str "bsc-testnet",
     {| rpc := env_or env (str "BSC_TESTNET_RPC")
                      (str "https://data-seed-prebsc-1-s1.binance.org:8545");
        chainId := 97;
        explorer := str "https://testnet.bscscan.com" |});
    (str "polygon",
     {| rpc := env_or env (str "POLYGON_RPC") (str "https://polygon-rpc.com");
        chainId := 137;
        explorer := str "https://polygonscan.com" |});
    (str "polygon-mumbai",
     {| rpc := env_or env (str "MUMBAI_RPC")
                      (str "https://rpc-mumbai.maticvigil.com");
        chainId := 80001;
        explorer := str "https://mumbai.polygonscan.com" |}) ].

(** The environment variables the table reads. *)
Definition variables_read : list string :=
  [ str "ETHEREUM_RPC"; str "GOERLI_RPC"; str "BSC_RPC";
    str "BSC_TESTNET_RPC"; str "POLYGON_RPC"; str "MUMBAI_RPC";
    str "INFURA_API_KEY" ].

(** [s.replace(old, new)] with one-character strings: the first occurrence
    only. *)
Fixpoint replace_first (old new : ascii) (s : string) : string :=
  match s with
  | [] => []
  | c :: rest =>
      if Ascii.eqb c old then new :: rest
      else c :: replace_first old new rest
  end.

(** [\w] *)
Definition is_word (c : ascii) : bool :=
  in_range "a" "z" c || in_range "A" "Z" c || is_digit c || Ascii.eqb c "_".

(** [s.replace(/\b\w/g, l => l.toUpperCase())]: a word character is
    replaced when the character before it (in [s]) is not a word character
    or it is the first one; [after_word] tells whether the previous
    character was a word character. *)
Fixpoint capitalize_words (after_word : bool) (s : string) : string :=
  match s with
  | [] => []
  | c :: rest =>
      (if negb after_word && is_word c then char_toUpperCase c else c)
        :: capitalize_words (is_word c) rest
  end.

(** [key.replace('-', ' ').replace(/\b\w/g, l => l.toUpperCase())] *)
Definition display_name (key : string) : string :=
  capitalize_words false (replace_first "-" " " key).

(** One element of the [networks] array of the response. *)
Record NetworkInfo : Type := mkNetworkInfo {
  info_id : string;
  info_name : string;
  info_chainId : Z;
  info_explorer : string
}.

(** [GET /networks]: the list sent as
    [{ success: true, networks: networkList }].  Each key of
    [Object.keys(networks)] is mapped with its own entry
    [networks[key]]. *)
Definition get_networks (env : ProcessEnv) : list NetworkInfo :=
  map (fun entry : string * Network =>
         let (key, network) := entry in
         {| info_id := key;
            info_name := display_name key;
            info_chainId := chainId network;
            info_explorer := explorer network |})
      (networks env).

End Networks.

(** ** Vocabulary for the further properties *)

(** Hex data as [arrayify] takes it: ["0x"] and an even number of hex
    digits. *)
Definition hex_data (value : string) : Prop :=
  Ethers.isHexString value = true /\ Nat.even (length value) = true.

(** The world after [attempts] failed attempts were followed by one more
    read of the random source, starting from [w]. *)
Definition after_attempts (w : World) (failed : nat) : World :=
  {| draws := draws w + failed + 1;
     yields := yields w + Z.to_nat (Z.of_nat failed / 1000) |}.

(** * Properties *)

(** ** Numbers *)

Lemma less_than_spec (x y : number) : less_than x y = true <-> (x < y)%Q.
Proof. unfold less_than, Qlt. apply Z.ltb_lt. Qed.

(** An integer is below a number exactly when it is below its ceiling. *)
Lemma less_than_integer (a : Z) (q : number) :
  less_than (inject_Z a) q = (a <? Qceiling q).
Proof.
  apply eq_true_iff_eq. rewrite less_than_spec, Z.ltb_lt. split.
  - intros H. rewrite Zlt_Qlt.
    eapply Qlt_le_trans; [exact H | apply Qle_ceiling].
  - intros H. apply Qle_lt_trans with (inject_Z (Qceiling q - 1)).
    + rewrite <- Zle_Qle. lia.
    + apply Qceiling_lt.
Qed.

Lemma Qceiling_Math_min (q : number) (b : Z) :
  Qceiling (Math_min q (inject_Z b)) = Z.min (Qceiling q) b.
Proof.
  unfold Math_min. rewrite less_than_integer.
  destruct (Z.ltb_spec b (Qceiling q)).
  - rewrite Qceiling_Z. lia.
  - lia.
Qed.

Lemma Math_min_integer (a b : Z) :
  Math_min (inject_Z a) (inject_Z b) = inject_Z (Z.min a b).
Proof.
  unfold Math_min. rewrite less_than_integer, Qceiling_Z.
  destruct (Z.ltb_spec b a); f_equal; lia.
Qed.

(** ** Characters and hexadecimal text *)

Lemma lower_hex_toLowerCase (c : ascii) :
  is_lower_hex c = true -> char_toLowerCase c = c.
Proof.
  destruct c as [[] [] [] [] [] [] [] []]; vm_compute; congruence.
Qed.

Lemma lower_hex_is_hex (c : ascii) : is_lower_hex c = true -> is_hex c = true.
Proof.
  unfold is_hex, is_lower_hex. intros ->. reflexivity.
Qed.

Lemma lower_hex_not_AF (c : ascii) : is_lower_hex c = true -> is_AF c = false.
Proof.
  destruct c as [[] [] [] [] [] [] [] []]; vm_compute; congruence.
Qed.

Lemma lower_upper_lower_hex (c : ascii) :
  is_lower_hex c = true -> char_toLowerCase (char_toUpperCase c) = c.
Proof.
  destruct c as [[] [] [] [] [] [] [] []]; vm_compute; congruence.
Qed.

Lemma digit_toUpperCase (c : ascii) :
  is_lower_hex c = true -> is_af c = false -> char_toUpperCase c = c.
Proof.
  destruct c as [[] [] [] [] [] [] [] []]; vm_compute; congruence.
Qed.

Lemma toLowerCase_lower_hex (s : string) :
  forallb is_lower_hex s = true -> toLowerCase s = s.
Proof.
  induction s as [|c s IH]; simpl; [reflexivity|].
  intros H. apply andb_true_iff in H as [Hc Hs].
  now rewrite (lower_hex_toLowerCase c Hc), (IH Hs).
Qed.

Lemma toLowerCase_idempotent (s : string) :
  toLowerCase (toLowerCase s) = toLowerCase s.
Proof.
  unfold toLowerCase. rewrite map_map. apply map_ext.
  intros c. destruct c as [[] [] [] [] [] [] [] []]; vm_compute; congruence.
Qed.

Lemma forallb_lower_hex_is_hex (s : string) :
  forallb is_lower_hex s = true -> forallb is_hex s = true.
Proof.
  rewrite !forallb_forall. intros H c Hc. apply lower_hex_is_hex, H, Hc.
Qed.

Lemma hex_digit_lower (n : Z) : is_lower_hex (Hex.hex_digit n) = true.
Proof.
  unfold Hex.hex_digit.
  destruct (nth_in_or_default (Z.to_nat n) Hex.hex_chars "0"%char) as [Hin | ->];
    [|reflexivity].
  revert Hin. generalize (nth (Z.to_nat n) Hex.hex_chars "0"%char).
  assert (H : forallb is_lower_hex Hex.hex_chars = true) by reflexivity.
  rewrite forallb_forall in H. exact H.
Qed.

Lemma hex_value_digit (n : Z) :
  0 <= n < 16 -> Ethers.hex_value (Hex.hex_digit n) = n.
Proof.
  intros H. rewrite <- (Z2Nat.id n) by lia.
  assert (Hk : (Z.to_nat n < 16)%nat) by lia.
  revert Hk. generalize (Z.to_nat n) as k. intros k Hk.
  do 16 (destruct k as [|k]; [reflexivity|]). lia.
Qed.

Lemma high_nibble_range (b : Z) : is_byte b -> 0 <= Z.shiftr b 4 < 16.
Proof.
  unfold is_byte. intros H. rewrite Z.shiftr_div_pow2 by lia.
  change (2 ^ 4) with 16. split.
  - apply Z.div_pos; lia.
  - apply Z.div_lt_upper_bound; lia.
Qed.

Lemma low_nibble_range (b : Z) : 0 <= Z.land b 15 < 16.
Proof.
  change 15 with (Z.ones 4). rewrite Z.land_ones by lia.
  change (2 ^ 4) with 16. apply Z.mod_pos_bound. lia.
Qed.

Lemma byte_nibbles (b : Z) :
  is_byte b -> 16 * Z.shiftr b 4 + Z.land b 15 = b.
Proof.
  unfold is_byte. intros H. rewrite Z.shiftr_div_pow2 by lia.
  change 15 with (Z.ones 4). rewrite Z.land_ones by lia.
  change (2 ^ 4) with 16. symmetry. apply Z.div_mod. lia.
Qed.

Lemma hex_of_bytes_cons (b : Z) (bs : list Z) :
  Hex.hex_of_bytes (b :: bs) =
  Hex.hex_digit (Z.shiftr b 4) :: Hex.hex_digit (Z.land b 15)
    :: Hex.hex_of_bytes bs.
Proof. reflexivity. Qed.

Lemma hex_of_bytes_length (bs : list Z) :
  length (Hex.hex_of_bytes bs) = (2 * length bs)%nat.
Proof.
  induction bs as [|b bs IH]; [reflexivity|].
  rewrite hex_of_bytes_cons. simpl length. rewrite IH. lia.
Qed.

Lemma hex_of_bytes_lower (bs : list Z) :
  forallb is_lower_hex (Hex.hex_of_bytes bs) = true.
Proof.
  induction bs as [|b bs IH]; [reflexivity|].
  rewrite hex_of_bytes_cons. simpl forallb.
  now rewrite !hex_digit_lower, IH.
Qed.

Lemma parse_pairs_hex_of_bytes (bs : list Z) :
  Forall is_byte bs -> Ethers.parse_pairs (Hex.hex_of_bytes bs) = bs.
Proof.
  induction 1 as [|b bs Hb _ IH]; [reflexivity|].
  rewrite hex_of_bytes_cons. cbn [Ethers.parse_pairs].
  rewrite !hex_value_digit
    by (apply high_nibble_range, Hb || apply low_nibble_range).
  now rewrite byte_nibbles, IH.
Qed.

Lemma skipn_hex_of_bytes (k : nat) (bs : list Z) :
  skipn (2 * k) (Hex.hex_of_bytes bs) = Hex.hex_of_bytes (skipn k bs).
Proof.
  revert bs. induction k as [|k IH]; intros bs; [reflexivity|].
  destruct bs as [|b bs]; [reflexivity|].
  replace (2 * S k)%nat with (S (S (2 * k))) by lia.
  rewrite hex_of_bytes_cons. simpl skipn. apply IH.
Qed.

(** ** The digest

    The model of the hash agrees with the published Keccak-256 digests of
    the empty message and of ["abc"]. *)

Lemma keccak_256_known_digests :
  Ethers.keccak256 []
  = str "0xc5d2460186f7233c927e7db2dcc703c0e500b653ca82273b7bfad8045d85a470"
  /\ Ethers.keccak256 (map charCode (str "abc"))
     = str "0x4e03657aea45a94fc7d47ba826c8d667c0d1e6e33a64a036ec44f58fa12d6c45".
Proof. split; vm_compute; reflexivity. Qed.

Lemma keccak_256_length (msg : list Z) : length (Keccak.keccak_256 msg) = 32%nat.
Proof.
  unfold Keccak.keccak_256. cbv zeta. now rewrite length_map, length_seq.
Qed.

Lemma keccak_256_bytes (msg : list Z) : Forall is_byte (Keccak.keccak_256 msg).
Proof.
  unfold Keccak.keccak_256. cbv zeta. apply Forall_map, Forall_forall.
  intros k _. unfold Keccak.squeeze_byte, is_byte.
  change 255 with (Z.ones 8). rewrite Z.land_ones by lia.
  change (2 ^ 8) with 256. apply Z.mod_pos_bound. lia.
Qed.

(** ** The ethers utilities on hexadecimal text *)

Lemma str_0x_app (s : string) : str "0x" ++ s = "0"%char :: "x"%char :: s.
Proof. reflexivity. Qed.

Lemma string_eqb_refl (s : string) : string_eqb s s = true.
Proof.
  unfold string_eqb. destruct (list_eq_dec ascii_dec s s); congruence.
Qed.

Lemma string_eqb_eq (s t : string) : string_eqb s t = true <-> s = t.
Proof.
  unfold string_eqb. destruct (list_eq_dec ascii_dec s t); split; congruence.
Qed.

Lemma isHexString_0x (digits : string) :
  Ethers.isHexString (str "0x" ++ digits) = forallb is_hex digits.
Proof. reflexivity. Qed.

Lemma arrayify_0x (digits : string) :
  forallb is_hex digits = true ->
  Nat.even (length digits) = true ->
  Ethers.arrayify (str "0x" ++ digits) = Ok (Ethers.parse_pairs digits).
Proof.
  intros Hhex Heven. unfold Ethers.arrayify.
  rewrite isHexString_0x, Hhex. rewrite str_0x_app.
  unfold substring_from. cbn [skipn].
  apply Nat.even_spec in Heven as [k ->].
  now rewrite Nat.mul_comm, Nat.Div0.mod_mul.
Qed.

Lemma arrayify_hex_of_bytes (bs : list Z) :
  Forall is_byte bs ->
  Ethers.arrayify (str "0x" ++ Hex.hex_of_bytes bs) = Ok bs.
Proof.
  intros Hb. rewrite arrayify_0x.
  - now rewrite parse_pairs_hex_of_bytes.
  - apply forallb_lower_hex_is_hex, hex_of_bytes_lower.
  - rewrite hex_of_bytes_length. apply Nat.even_spec. now exists (length bs).
Qed.

Lemma arrayify_keccak256 (data : list Z) :
  Ethers.arrayify (Ethers.keccak256 data) = Ok (Keccak.keccak_256 data).
Proof.
  unfold Ethers.keccak256. apply arrayify_hex_of_bytes, keccak_256_bytes.
Qed.

Lemma isHexStringOfLength_hex (bs : list Z) (n : nat) :
  length bs = n ->
  Ethers.isHexStringOfLength (str "0x" ++ Hex.hex_of_bytes bs) n = true.
Proof.
  intros <-. unfold Ethers.isHexStringOfLength.
  rewrite isHexString_0x, forallb_lower_hex_is_hex by apply hex_of_bytes_lower.
  rewrite str_0x_app. cbn [length andb].
  rewrite hex_of_bytes_length. apply Nat.eqb_refl.
Qed.

(** ** The checksum loop *)

Lemma checksum_step_shift (h : Z) (hs : list Z) (a b : ascii) (rest : string)
      (i : nat) :
  Ethers.checksum_step (h :: hs) (a :: b :: rest) (S (S i)) =
  a :: b :: Ethers.checksum_step hs rest i.
Proof.
  unfold Ethers.checksum_step.
  replace (S (S i) / 2)%nat with (S (i / 2)).
  2:{ replace (S (S i)) with (i + 1 * 2)%nat by lia.
      rewrite Nat.div_add by lia. lia. }
  cbn [nth]. cbv zeta.
  destruct (8 <=? Z.shiftr (nth (i / 2) hs 0) 4);
    destruct (8 <=? Z.land (nth (i / 2) hs 0) 15);
    cbn [nth set_index Nat.add]; reflexivity.
Qed.

Lemma checksum_fold_shift (h : Z) (hs : list Z) (idxs : list nat) :
  forall (a b : ascii) (rest : string),
    fold_left (Ethers.checksum_step (h :: hs))
              (map (fun i => S (S i)) idxs) (a :: b :: rest) =
    a :: b :: fold_left (Ethers.checksum_step hs) idxs rest.
Proof.
  induction idxs as [|i idxs IH]; intros a b rest; [reflexivity|].
  cbn [map fold_left]. rewrite checksum_step_shift. apply IH.
Qed.

Lemma even_indices_succ (k : nat) :
  map (fun j => 2 * j)%nat (seq 0 (S k)) =
  0%nat :: map (fun i => S (S i)) (map (fun j => 2 * j)%nat (seq 0 k)).
Proof.
  cbn [seq map]. f_equal. rewrite <- seq_shift, !map_map.
  apply map_ext. intros j. lia.
Qed.

Lemma checksum_mark (n : Z) (c : ascii) :
  is_lower_hex c = true -> 0 <= n < 16 ->
  (if 8 <=? n then char_toUpperCase c else c) =
  (if is_af c && (7 <? Ethers.hex_value (Hex.hex_digit n))
   then char_toUpperCase c else c).
Proof.
  intros Hc Hn. rewrite hex_value_digit by exact Hn.
  replace (7 <? n) with (8 <=? n)
    by (destruct (Z.leb_spec 8 n), (Z.ltb_spec 7 n); lia || reflexivity).
  destruct (is_af c) eqn:Haf; cbn [andb]; [reflexivity|].
  rewrite digit_toUpperCase by assumption. now destruct (8 <=? n).
Qed.

(** The loop of [getChecksumAddress] computes the reference checksum. *)
Lemma checksum_fold (k : nat) :
  forall (chars : string) (hashed : list Z),
    length chars = (2 * k)%nat ->
    (k <= length hashed)%nat ->
    Forall is_byte hashed ->
    forallb is_lower_hex chars = true ->
    fold_left (Ethers.checksum_step hashed)
              (map (fun j => 2 * j)%nat (seq 0 k)) chars =
    Reference.checksum_chars chars (Hex.hex_of_bytes hashed).
Proof.
  induction k as [|k IH]; intros chars hashed Hlen Hk Hbytes Hlower.
  - destruct chars; [reflexivity | discriminate].
  - destruct chars as [|a [|b rest]]; try (cbn in Hlen; lia).
    destruct hashed as [|h hs]; [cbn in Hk; lia|].
    cbn [forallb] in Hlower.
    apply andb_true_iff in Hlower as [Ha Hlower].
    apply andb_true_iff in Hlower as [Hb Hrest].
    inversion Hbytes as [|? ? Hh Hhs]; subst.
    rewrite even_indices_succ. cbn [fold_left].
    assert (Hstep : Ethers.checksum_step (h :: hs) (a :: b :: rest) 0 =
                    (if 8 <=? Z.shiftr h 4 then char_toUpperCase a else a)
                      :: (if 8 <=? Z.land h 15 then char_toUpperCase b else b)
                      :: rest).
    { unfold Ethers.checksum_step. cbn [Nat.div Nat.divmod fst nth]. cbv zeta.
      destruct (8 <=? Z.shiftr h 4); destruct (8 <=? Z.land h 15);
        reflexivity. }
    rewrite Hstep, checksum_fold_shift, hex_of_bytes_cons.
    cbn [Reference.checksum_chars].
    rewrite <- !checksum_mark
      by (assumption || apply high_nibble_range, Hh || apply low_nibble_range).
    rewrite IH; [reflexivity | cbn in Hlen; lia | cbn in Hk; lia
                 | assumption | assumption].
Qed.

Lemma getChecksumAddress_hex (addr : list Z) :
  length addr = 20%nat ->
  Ethers.getChecksumAddress (str "0x" ++ Hex.hex_of_bytes addr) =
  Ok (Reference.checksum_encode addr).
Proof.
  intros Hlen. unfold Ethers.getChecksumAddress.
  rewrite isHexStringOfLength_hex by exact Hlen.
  rewrite str_0x_app.
  change (toLowerCase ("0"%char :: "x"%char :: Hex.hex_of_bytes addr))
    with ("0"%char :: "x"%char :: toLowerCase (Hex.hex_of_bytes addr)).
  rewrite toLowerCase_lower_hex by apply hex_of_bytes_lower.
  unfold substring_from. cbn [skipn].
  rewrite firstn_all2 by (rewrite hex_of_bytes_length; lia).
  rewrite arrayify_keccak256. cbn [JS.bind].
  rewrite (checksum_fold 20).
  - reflexivity.
  - rewrite hex_of_bytes_length. lia.
  - rewrite keccak_256_length. lia.
  - apply keccak_256_bytes.
  - apply hex_of_bytes_lower.
Qed.

Lemma not_mixed_case_hex (bs : list Z) :
  Ethers.is_mixed_case (str "0x" ++ Hex.hex_of_bytes bs) = false.
Proof.
  unfold Ethers.is_mixed_case. apply andb_false_iff. left.
  rewrite str_0x_app.
  change (existsb is_AF ("0"%char :: "x"%char :: Hex.hex_of_bytes bs))
    with (existsb is_AF (Hex.hex_of_bytes bs)).
  destruct (existsb is_AF (Hex.hex_of_bytes bs)) eqn:E; [|reflexivity].
  apply existsb_exists in E as (c & Hin & Hc).
  pose proof (hex_of_bytes_lower bs) as Hl.
  rewrite forallb_forall in Hl.
  rewrite (lower_hex_not_AF c (Hl c Hin)) in Hc. discriminate.
Qed.

Lemma getAddress_hex (addr : list Z) :
  length addr = 20%nat ->
  Ethers.getAddress (str "0x" ++ Hex.hex_of_bytes addr) =
  Ok (Reference.checksum_encode addr).
Proof.
  intros Hlen. unfold Ethers.getAddress, Ethers.is_plain_address.
  rewrite isHexStringOfLength_hex, orb_true_r by exact Hlen.
  change (substring_to 2 (str "0x" ++ Hex.hex_of_bytes addr)) with (str "0x").
  rewrite string_eqb_refl, getChecksumAddress_hex by exact Hlen.
  cbn [JS.bind]. now rewrite not_mixed_case_hex.
Qed.

(** ** The address formula *)

Lemma slice_last_hash (data : list Z) :
  slice_last 40 (Ethers.keccak256 data) =
  Hex.hex_of_bytes (Reference.low_bytes 20 (Keccak.keccak_256 data)).
Proof.
  unfold slice_last, Ethers.keccak256, Reference.low_bytes.
  rewrite str_0x_app. cbn [length].
  rewrite hex_of_bytes_length, keccak_256_length.
  change (S (S (2 * 32)) - 40)%nat with (S (S (2 * 12))).
  cbn [skipn]. apply skipn_hex_of_bytes.
Qed.

Lemma low_bytes_length (data : list Z) :
  length (Reference.low_bytes 20 (Keccak.keccak_256 data)) = 20%nat.
Proof.
  unfold Reference.low_bytes.
  rewrite length_skipn, keccak_256_length. reflexivity.
Qed.

(** Whatever bytes the three arguments denote, the address is the checksum
    rendering of the low 20 bytes of the digest of their concatenation
    after [0xff]; when an argument is not hex data, the error of [concat]
    is the error of the call. *)
Lemma calculateCREATE2Address_concat (deployerAddress salt bytecodeHash : string) :
  calculateCREATE2Address deployerAddress salt bytecodeHash =
  match Ethers.concat [str "0xff"; deployerAddress; salt; bytecodeHash] with
  | Ok concatenated =>
      Ok (Reference.checksum_encode
            (Reference.low_bytes 20 (Keccak.keccak_256 concatenated)))
  | Throw e => Throw e
  end.
Proof.
  unfold calculateCREATE2Address. cbv zeta.
  destruct (Ethers.concat _) as [concatenated | e]; cbn [JS.bind];
    [|reflexivity].
  rewrite slice_last_hash. apply getAddress_hex, low_bytes_length.
Qed.

Lemma concat_create2 (sd ss sh : string) (d s h : list Z) :
  Ethers.arrayify sd = Ok d ->
  Ethers.arrayify ss = Ok s ->
  Ethers.arrayify sh = Ok h ->
  Ethers.concat [str "0xff"; sd; ss; sh] = Ok (Reference.create2_preimage d s h).
Proof.
  intros Hd Hs Hh. cbn [Ethers.concat]. rewrite Hd, Hs, Hh.
  change (Ethers.arrayify (str "0xff")) with (@Ok (list Z) [255]).
  cbn [JS.bind]. now rewrite app_nil_r.
Qed.

(** C1.  For hex strings denoting a 20-byte deployer, a 32-byte salt and a
    32-byte init-code hash, [calculateCREATE2Address] returns the CREATE2
    reference address: the mixed-case checksum rendering of the low 20 bytes
    of the Keccak-256 digest of the 85-byte buffer
    [0xff || deployer || salt || initCodeHash].  For the zero deployer, the
    zero salt and the hash of empty bytecode that is the reference test
    vector [0xE33C0C7F7df4809055C3ebA6c09CFe4BaF1BD9e0]. *)
Theorem calculateCREATE2Address_reference
        (sd ss sh : string) (d s h : list Z) :
  Ethers.arrayify sd = Ok d -> length d = 20%nat ->
  Ethers.arrayify ss = Ok s -> length s = 32%nat ->
  Ethers.arrayify sh = Ok h -> length h = 32%nat ->
  length (Reference.create2_preimage d s h) = 85%nat
  /\ calculateCREATE2Address sd ss sh = Ok (Reference.create2_address d s h)
  /\ calculateCREATE2Address
       (str "0x0000000000000000000000000000000000000000")
       (str "0x0000000000000000000000000000000000000000000000000000000000000000")
       (Ethers.keccak256 [])
     = Ok (str "0xE33C0C7F7df4809055C3ebA6c09CFe4BaF1BD9e0").
Proof.
  intros Hd Ld Hs Ls Hh Lh. split; [|split].
  - unfold Reference.create2_preimage. rewrite !length_app, Ld, Ls, Lh.
    reflexivity.
  - rewrite calculateCREATE2Address_concat.
    now rewrite (concat_create2 sd ss sh d s h Hd Hs Hh).
  - vm_compute. reflexivity.
Qed.

Lemma calculateCREATE2Address_reference_witness :
  let d := Ethers.parse_pairs (str "Ab5801a7D398351b8bE11C439e05C5B3259aeC9B") in
  let s := Ethers.parse_pairs
             (str "00000000000000000000000000000000000000000000000000000000000000ff") in
  let h := Ethers.parse_pairs
             (str "c5d2460186f7233c927e7db2dcc703c0e500b653ca82273b7bfad8045d85a470") in
  (length d = 20 /\ length s = 32 /\ length h = 32)%nat
  /\ calculateCREATE2Address
       Example.deployer
       (str "0x00000000000000000000000000000000000000000000000000000000000000ff")
       Example.empty_code_hash
     = Ok (Reference.create2_address d s h).
Proof.
  intros d s h. split; [repeat split|].
  refine (proj1 (proj2 (calculateCREATE2Address_reference
                          _ _ _ d s h _ _ _ _ _ _))); reflexivity.
Defined.

(** ** The search loop *)

Lemma search_loop_step (env : Env) (fuel : nat) (d h t : string)
      (maxAttempts : number) (attempts : Z) (w : World) :
  search_loop env (S fuel) d h t maxAttempts attempts w =
  if attempts <? Qceiling maxAttempts then
    match calculateCREATE2Address d (salt_at env (draws w)) h with
    | Throw e => Some (Rejected e, after_draw w)
    | Ok address =>
        if endsWith (toLowerCase address) t
        then Some (Resolved (salt_at env (draws w)) address (attempts + 1),
                   after_draw w)
        else search_loop env fuel d h t maxAttempts (attempts + 1)
                         (after_count env (attempts + 1) (after_draw w))
    end
  else Some (Rejected (Error max_attempts_message), w).
Proof. rewrite <- less_than_integer. reflexivity. Qed.

Lemma draws_after_count (env : Env) (attempts : Z) (w : World) :
  draws (after_count env attempts w) = draws w.
Proof.
  unfold after_count. now destruct (Z.rem attempts 1000 =? 0).
Qed.

Lemma concat_throws_argument_error (items : list string) (e : exn) :
  Ethers.concat items = Throw e -> is_argument_error e.
Proof.
  revert e. induction items as [|item items IH]; intros e; [discriminate|].
  cbn [Ethers.concat]. unfold Ethers.arrayify.
  destruct (Ethers.isHexString item);
    [destruct (Nat.eqb _ 0)|]; cbn [JS.bind];
    try (intros [= <-]; exact I).
  destruct (Ethers.concat items) as [tail | e']; cbn [JS.bind];
    [discriminate|].
  intros [= <-]. now apply IH.
Qed.

Lemma calculateCREATE2Address_throws (d s h : string) (e : exn) :
  calculateCREATE2Address d s h = Throw e -> is_argument_error e.
Proof.
  rewrite calculateCREATE2Address_concat.
  destruct (Ethers.concat _) eqn:E; [discriminate|].
  intros [= <-]. eapply concat_throws_argument_error, E.
Qed.

(** With fuel for one guard evaluation more than the attempts left, the
    loop settles. *)
Lemma search_loop_total (env : Env) (d h t : string) (maxAttempts : number)
      (fuel : nat) :
  forall (attempts : Z) (w : World),
    (Z.to_nat (Qceiling maxAttempts - attempts) < fuel)%nat ->
    exists out w',
      search_loop env fuel d h t maxAttempts attempts w = Some (out, w').
Proof.
  induction fuel as [|fuel IH]; intros attempts w Hfuel; [lia|].
  rewrite search_loop_step.
  destruct (Z.ltb_spec attempts (Qceiling maxAttempts)) as [Hlt | Hge]; [|eauto].
  destruct (calculateCREATE2Address _ _ _) as [address | e]; [|eauto].
  destruct (endsWith _ _); [eauto|].
  apply IH. lia.
Qed.

(** What the loop can settle with, and what it has done by then. *)
Lemma search_loop_sound (env : Env) (d h t : string) (maxAttempts : number)
      (fuel : nat) :
  forall (attempts : Z) (w : World) (out : Outcome) (w' : World),
    search_loop env fuel d h t maxAttempts attempts w = Some (out, w') ->
    (draws w <= draws w')%nat
    /\ Z.of_nat (draws w' - draws w) <= Z.max 0 (Qceiling maxAttempts - attempts)
    /\ match out with
       | Resolved salt address n =>
           n = attempts + Z.of_nat (draws w' - draws w)
           /\ attempts < n <= (Qceiling maxAttempts)
           /\ salt = salt_at env (draws w' - 1)
           /\ calculateCREATE2Address d salt h = Ok address
           /\ endsWith (toLowerCase address) t = true
       | Rejected (Error m) =>
           m = max_attempts_message
           /\ Z.of_nat (draws w' - draws w) = Z.max 0 (Qceiling maxAttempts - attempts)
       | Rejected (ArgumentError _ _) => True
       end.
Proof.
  induction fuel as [|fuel IH]; intros attempts w out w'; [discriminate|].
  rewrite search_loop_step.
  destruct (Z.ltb_spec attempts (Qceiling maxAttempts)) as [Hlt | Hge].
  - destruct (calculateCREATE2Address _ _ _) as [address | e] eqn:Hcalc.
    + destruct (endsWith _ _) eqn:Hends.
      * intros [= <- <-]. cbn [draws after_draw].
        replace (S (draws w) - draws w)%nat with 1%nat by lia.
        replace (S (draws w) - 1)%nat with (draws w) by lia.
        repeat split; try lia; assumption.
      * intros Hrun. apply IH in Hrun.
        rewrite draws_after_count in Hrun. cbn [draws after_draw] in Hrun.
        destruct Hrun as (Hle & Hbound & Hout).
        split; [lia|]. split; [lia|].
        destruct out as [salt address' n | [reason value | m]].
        -- destruct Hout as (-> & Hn & Hrest). repeat split; try lia.
           all: apply Hrest.
        -- exact I.
        -- destruct Hout as (-> & Hn). split; [reflexivity | lia].
    + intros [= <- <-]. cbn [draws after_draw].
      split; [lia|]. split; [lia|].
      apply calculateCREATE2Address_throws in Hcalc.
      destruct e; [exact I | contradiction].
  - intros [= <- <-]. replace (draws w - draws w)%nat with 0%nat by lia.
    repeat split; lia.
Qed.

Lemma yields_after_count (env : Env) (attempts : Z) (w : World) :
  0 < attempts ->
  Z.of_nat (yields (after_count env attempts w)) =
  Z.of_nat (yields w) + (attempts / 1000 - (attempts - 1) / 1000).
Proof.
  intros Hpos. unfold after_count.
  rewrite Z.rem_mod_nonneg by lia.
  destruct (Z.eqb_spec (attempts mod 1000) 0) as [E | E];
    cbn [yields Node.setImmediate_turn];
    Z.div_mod_to_equations; lia.
Qed.

(** When no attempt matches, the loop throws the max-attempts error after
    every attempt the cap allows, having yielded once per 1000 attempts. *)
Lemma search_loop_exhausts (env : Env) (d h t : string) (maxAttempts : number)
      (fuel : nat) :
  forall (attempts : Z) (w : World),
    0 <= attempts ->
    (Z.to_nat (Qceiling maxAttempts - attempts) < fuel)%nat ->
    (forall k, (draws w <= k < draws w + Z.to_nat (Qceiling maxAttempts - attempts))%nat ->
               misses env d h t k) ->
    search_loop env fuel d h t maxAttempts attempts w =
    Some (Rejected (Error max_attempts_message),
          {| draws := draws w + Z.to_nat (Qceiling maxAttempts - attempts);
             yields := yields w
                       + Z.to_nat (Z.max attempts (Qceiling maxAttempts) / 1000
                                   - attempts / 1000) |}).
Proof.
  induction fuel as [|fuel IH]; intros attempts w Hpos Hfuel Hmiss; [lia|].
  rewrite search_loop_step.
  destruct (Z.ltb_spec attempts (Qceiling maxAttempts)) as [Hlt | Hge].
  - destruct (Hmiss (draws w)) as (address & -> & ->); [lia|].
    rewrite IH.
    + rewrite draws_after_count. cbn [draws after_draw].
      pose proof (yields_after_count env (attempts + 1) (after_draw w)) as Hy.
      cbn [yields after_draw] in Hy.
      replace (attempts + 1 - 1) with attempts in Hy by lia.
      do 2 f_equal. f_equal; [lia|].
      rewrite (Z.max_r attempts), (Z.max_r (attempts + 1)) by lia.
      assert ((attempts + 1) / 1000 <= (Qceiling maxAttempts) / 1000)
        by (apply Z.div_le_mono; lia).
      assert (attempts / 1000 <= (attempts + 1) / 1000)
        by (apply Z.div_le_mono; lia).
      lia.
    + lia.
    + lia.
    + intros k Hk. rewrite draws_after_count in Hk.
      cbn [draws after_draw] in Hk. apply Hmiss. lia.
  - rewrite Z.max_l by lia.
    replace (Z.to_nat (Qceiling maxAttempts - attempts)) with 0%nat by lia.
    rewrite Z.sub_diag. cbn [Z.to_nat]. rewrite !Nat.add_0_r.
    now destruct w.
Qed.

(** ** Lower-casing a checksummed address *)

Lemma toLowerCase_checksum_chars (hex_addr : string) :
  forall hashed_address : string,
    forallb is_lower_hex hex_addr = true ->
    (length hex_addr <= length hashed_address)%nat ->
    toLowerCase (Reference.checksum_chars hex_addr hashed_address) = hex_addr.
Proof.
  induction hex_addr as [|c cs IH]; intros hashed Hlower Hlen;
    [reflexivity|].
  destruct hashed as [|n ns]; [cbn in Hlen; lia|].
  cbn [forallb] in Hlower. apply andb_true_iff in Hlower as [Hc Hcs].
  cbn [Reference.checksum_chars toLowerCase map].
  fold (toLowerCase (Reference.checksum_chars cs ns)).
  rewrite IH by (assumption || cbn in Hlen; lia).
  f_equal.
  destruct (is_af c && (7 <? Ethers.hex_value n)).
  - now apply lower_upper_lower_hex.
  - now apply lower_hex_toLowerCase.
Qed.

Lemma toLowerCase_checksum_encode (addr : list Z) :
  (length addr <= 32)%nat ->
  toLowerCase (Reference.checksum_encode addr) =
  str "0x" ++ Hex.hex_of_bytes addr.
Proof.
  intros Hlen. unfold Reference.checksum_encode. cbv zeta. rewrite !str_0x_app.
  cbn [toLowerCase map].
  fold (toLowerCase
          (Reference.checksum_chars
             (Hex.hex_of_bytes addr)
             (Hex.hex_of_bytes
                (Keccak.keccak_256 (map charCode (Hex.hex_of_bytes addr)))))).
  rewrite toLowerCase_checksum_chars.
  - reflexivity.
  - apply hex_of_bytes_lower.
  - rewrite !hex_of_bytes_length, keccak_256_length. lia.
Qed.

(** Every address the formula returns is ["0x"] and 40 hex characters, up to
    letter case. *)
Lemma calculateCREATE2Address_shape (d s h address : string) :
  calculateCREATE2Address d s h = Ok address ->
  exists body,
    toLowerCase address = str "0x" ++ body
    /\ length body = 40%nat
    /\ forallb is_lower_hex body = true.
Proof.
  rewrite calculateCREATE2Address_concat.
  destruct (Ethers.concat _) as [concatenated | e]; [|discriminate].
  intros [= <-].
  exists (Hex.hex_of_bytes
            (Reference.low_bytes 20 (Keccak.keccak_256 concatenated))).
  split; [|split].
  - apply toLowerCase_checksum_encode. rewrite low_bytes_length. lia.
  - now rewrite hex_of_bytes_length, low_bytes_length.
  - apply hex_of_bytes_lower.
Qed.

(** ** The mining operation *)

Lemma findSaltForTermination_unfold (env : Env) (d h t : string)
      (cap : number) (w : World) :
  findSaltForTermination env d h t (Some cap) w =
  search_loop env (S (Z.to_nat (Qceiling cap))) d h (toLowerCase t) cap 0 w.
Proof. reflexivity. Qed.

(** The call always settles. *)
Lemma findSaltForTermination_total (env : Env) (d h t : string)
      (maxAttempts : option number) (w : World) :
  exists out w', findSaltForTermination env d h t maxAttempts w = Some (out, w').
Proof.
  unfold findSaltForTermination. apply search_loop_total.
  rewrite Z.sub_0_r. lia.
Qed.

(** C2.  When the search for a validated termination [T] (1 to 8
    characters of [0-9a-f]) returns a result, the lower-cased address of the
    result is ["0x"] followed by 40 hex characters whose last [length T]
    characters are exactly [T]: the window lies inside the 40 hex
    characters and never touches the prefix.  The address is the CREATE2
    address of the returned salt. *)
Theorem findSaltForTermination_suffix
        (env : Env) (d h T : string) (maxAttempts : option number)
        (w w' : World) (salt address : string) (attempts : Z) :
  valid_termination T ->
  findSaltForTermination env d h T maxAttempts w
  = Some (Resolved salt address attempts, w') ->
  calculateCREATE2Address d salt h = Ok address
  /\ endsWith (toLowerCase address) T = true
  /\ exists body,
       toLowerCase address = str "0x" ++ body
       /\ length body = 40%nat
       /\ forallb is_lower_hex body = true
       /\ (length T <= length body)%nat
       /\ skipn (length body - length T) body = T.
Proof.
  intros [Hhex Hlen] Hrun. unfold findSaltForTermination in Hrun.
  apply search_loop_sound in Hrun as (_ & _ & _ & _ & _ & Hcalc & Hends).
  rewrite (toLowerCase_lower_hex T Hhex) in Hends.
  split; [exact Hcalc|]. split; [exact Hends|].
  destruct (calculateCREATE2Address_shape _ _ _ _ Hcalc)
    as (body & Hlow & Hbody & Hlower).
  exists body. repeat split; try assumption; try lia.
  unfold endsWith in Hends. apply andb_true_iff in Hends as [_ Heq].
  apply string_eqb_eq in Heq. rewrite Hlow, str_0x_app in Heq.
  cbn [length] in Heq. rewrite Hbody in *.
  replace (S (S 40) - length T)%nat with (S (S (40 - length T))) in Heq by lia.
  exact Heq.
Qed.

Lemma findSaltForTermination_suffix_witness :
  valid_termination (str "d4")
  /\ findSaltForTermination Example.counting Example.deployer
                            Example.empty_code_hash (str "d4") (Some (inject_Z 10))
                            Example.start
     = Some (Resolved (salt_at Example.counting 2)
                      (str "0xc93499704657b7884094A331E2F5B6986CAE00d4") 3,
             {| draws := 3; yields := 0 |})
  /\ exists body,
       toLowerCase (str "0xc93499704657b7884094A331E2F5B6986CAE00d4")
       = str "0x" ++ body
       /\ length body = 40%nat
       /\ forallb is_lower_hex body = true
       /\ (length (str "d4") <= length body)%nat
       /\ skipn (length body - length (str "d4")) body = str "d4".
Proof.
  assert (Hvalid : valid_termination (str "d4"))
    by (split; [reflexivity | cbn; lia]).
  assert (Hrun :
            findSaltForTermination Example.counting Example.deployer
                                   Example.empty_code_hash (str "d4") (Some (inject_Z 10))
                                   Example.start
            = Some (Resolved (salt_at Example.counting 2)
                             (str "0xc93499704657b7884094A331E2F5B6986CAE00d4")
                             3,
                    {| draws := 3; yields := 0 |}))
    by (vm_compute; reflexivity).
  split; [exact Hvalid|]. split; [exact Hrun|].
  exact (proj2 (proj2 (findSaltForTermination_suffix
                         _ _ _ _ _ _ _ _ _ _ Hvalid Hrun))).
Defined.

(** C3.  With a positive cap the call settles; a result carries an attempt
    count between 1 and the cap, which is the number of salts drawn; the
    max-attempts error comes after exactly [cap] draws. *)
Theorem attempt_accounting
        (env : Env) (d h t : string) (cap : Z) (w : World) :
  0 < cap ->
  exists out w',
    findSaltForTermination env d h t (Some (inject_Z cap)) w
    = Some (out, w')
    /\ match out with
       | Resolved _ _ attempts =>
           1 <= attempts <= cap
           /\ attempts = Z.of_nat (draws w' - draws w)
       | Rejected (Error m) =>
           m = max_attempts_message
           /\ Z.of_nat (draws w' - draws w) = cap
       | Rejected (ArgumentError _ _) => True
       end.
Proof.
  intros Hcap.
  destruct (findSaltForTermination_total env d h t (Some (inject_Z cap)) w)
    as (out & w' & Hrun).
  exists out, w'. split; [exact Hrun|].
  rewrite findSaltForTermination_unfold in Hrun.
  apply search_loop_sound in Hrun as (_ & _ & Hout).
  rewrite Qceiling_Z in Hout.
  destruct out as [salt address n | [reason value | m]].
  - destruct Hout as (Hn & Hrange & _). lia.
  - exact I.
  - destruct Hout as (-> & Hn). split; [reflexivity | lia].
Qed.

Lemma attempt_accounting_witness :
  0 < 10
  /\ exists out w',
       findSaltForTermination Example.counting Example.deployer
                              Example.empty_code_hash (str "d4") (Some (inject_Z 10))
                              Example.start
       = Some (out, w')
       /\ match out with
          | Resolved _ _ attempts =>
              1 <= attempts <= 10
              /\ attempts = Z.of_nat (draws w' - draws Example.start)
          | Rejected (Error m) =>
              m = max_attempts_message
              /\ Z.of_nat (draws w' - draws Example.start) = 10
          | Rejected (ArgumentError _ _) => True
          end.
Proof.
  assert (Hcap : 0 < 10) by lia.
  split; [exact Hcap|].
  exact (attempt_accounting Example.counting Example.deployer
                            Example.empty_code_hash (str "d4") 10
                            Example.start Hcap).
Defined.

(** ** The handler of /calculate-address *)

Lemma clean_lower_hex (s : string) : forallb is_lower_hex (clean s) = true.
Proof.
  unfold clean. apply forallb_forall. intros c Hc.
  now apply filter_In in Hc.
Qed.

Lemma post_calculate_address_accepted (env : Env)
      (body : CalculateAddressRequest) (w : World) :
  accepted body ->
  post_calculate_address env body w =
  let cleanTermination := clean (text (req_desiredTermination body)) in
  let maxAttempts :=
    match req_maxAttempts body with
    | Some m => m
    | None => inject_Z 100000
    end in
  match findSaltForTermination env (text (req_deployerAddress body))
                               (text (req_bytecodeHash body)) cleanTermination
                               (Some (Math_min maxAttempts (inject_Z 1000000)))
                               w with
  | None => None
  | Some (Resolved salt address attempts, w') =>
      Some ({| status := 200;
               json := Mined salt address attempts cleanTermination |}, w')
  | Some (Rejected error, w') =>
      Some ({| status := 500;
               json := Failure (message (logger_version env) error) |}, w')
  end.
Proof.
  intros (Hd & Hh & Ht & Hlen). unfold post_calculate_address. cbv zeta.
  rewrite Hd, Hh, Ht. cbn [orb].
  destruct (Nat.eqb_spec (length (clean (text (req_desiredTermination body)))) 0)
    as [E | _]; [lia|].
  destruct (Nat.ltb_spec 8 (length (clean (text (req_desiredTermination body)))))
    as [E | _]; [lia|].
  reflexivity.
Qed.

(** C10.  With a cap of zero or less the loop body never runs: the call
    throws the max-attempts error at once and the world is untouched (no
    salt drawn, no address derived, no attempt counted).  The handler does
    not reject such a [maxAttempts]: an accepted request that carries it is
    answered with that error. *)
Theorem nonpositive_cap_fails_immediately
        (env : Env) (d h t : string) (cap : Z) (w : World) :
  cap <= 0 ->
  findSaltForTermination env d h t (Some (inject_Z cap)) w
  = Some (Rejected (Error max_attempts_message), w)
  /\ forall body : CalculateAddressRequest,
       accepted body ->
       req_maxAttempts body = Some (inject_Z cap) ->
       post_calculate_address env body w
       = Some ({| status := 500; json := Failure max_attempts_message |}, w).
Proof.
  intros Hcap.
  assert (Hrun : forall d h t c, c <= 0 ->
            findSaltForTermination env d h t (Some (inject_Z c)) w
            = Some (Rejected (Error max_attempts_message), w)).
  { intros d' h' t' c Hc.
    rewrite findSaltForTermination_unfold, search_loop_step, Qceiling_Z.
    destruct (Z.ltb_spec 0 c); [lia | reflexivity]. }
  split; [now apply Hrun|].
  intros body Hacc Hmax. rewrite post_calculate_address_accepted by exact Hacc.
  cbv zeta. rewrite Hmax, Math_min_integer, Hrun by lia. reflexivity.
Qed.

Lemma nonpositive_cap_fails_immediately_witness :
  (-5 <= 0 /\ accepted (Example.request (str "d4") 0))
  /\ findSaltForTermination Example.counting Example.deployer
                            Example.empty_code_hash (str "d4") (Some (inject_Z (-5)))
                            Example.start
     = Some (Rejected (Error max_attempts_message), Example.start)
  /\ post_calculate_address Example.counting (Example.request (str "d4") 0)
                            Example.start
     = Some ({| status := 500; json := Failure max_attempts_message |},
             Example.start).
Proof.
  assert (Hacc : accepted (Example.request (str "d4") 0))
    by (repeat split; cbn; lia).
  split; [split; [lia | exact Hacc]|]. split.
  - apply (nonpositive_cap_fails_immediately
             Example.counting Example.deployer Example.empty_code_hash
             (str "d4") (-5) Example.start).
    lia.
  - apply (nonpositive_cap_fails_immediately
             Example.counting Example.deployer Example.empty_code_hash
             (str "d4") 0 Example.start).
    + lia.
    + exact Hacc.
    + reflexivity.
Defined.

(** C7 (as the code has it).  Whatever number [maxAttempts] the caller
    sends, the handler settles; a request that passes validation is
    searched with the cap [Math.min(maxAttempts, 1000000)] and the response
    is built from the outcome of that search.  The loop runs while the
    counter is below the cap, so the number of attempts made (salts drawn)
    is at most the clamped cap rounded up to an integer (none when it is
    not positive): at most [min(maxAttempts, 1000000)] when [maxAttempts] is
    an integer, and never more than 1,000,000. *)
Theorem attempt_cap_clamped
        (env : Env) (deployerAddress bytecodeHash desiredTermination : option string)
        (cap : number) (w : World) :
  let body :=
    {| req_deployerAddress := deployerAddress;
       req_bytecodeHash := bytecodeHash;
       req_desiredTermination := desiredTermination;
       req_maxAttempts := Some cap |} in
  let clamped := Math_min cap (inject_Z 1000000) in
  exists response w',
    post_calculate_address env body w = Some (response, w')
    /\ Z.of_nat (draws w' - draws w) <= Z.max 0 (Qceiling clamped)
    /\ Z.of_nat (draws w' - draws w) <= 1000000
    /\ (forall c : Z,
          (cap == inject_Z c)%Q ->
          (draws w' - draws w <= Z.to_nat (Z.min c 1000000))%nat)
    /\ (accepted body ->
        exists out,
          findSaltForTermination env (text deployerAddress) (text bytecodeHash)
                                 (clean (text desiredTermination))
                                 (Some clamped) w
          = Some (out, w')
          /\ response =
             match out with
             | Resolved salt address attempts =>
                 {| status := 200;
                    json := Mined salt address attempts
                                  (clean (text desiredTermination)) |}
             | Rejected error =>
                 {| status := 500;
                    json := Failure (message (logger_version env) error) |}
             end).
Proof.
  intros body clamped.
  assert (Hclamp : Qceiling clamped = Z.min (Qceiling cap) 1000000)
    by apply Qceiling_Math_min.
  assert (Hint : forall c : Z, (cap == inject_Z c)%Q -> Qceiling cap = c)
    by (intros c Hc; rewrite (Qceiling_comp _ _ Hc); apply Qceiling_Z).
  unfold post_calculate_address, accepted. cbv zeta. cbn [body
    req_deployerAddress req_bytecodeHash req_desiredTermination req_maxAttempts].
  fold clamped.
  destruct (falsy deployerAddress || falsy bytecodeHash
            || falsy desiredTermination) eqn:Hfalsy.
  { eexists _, w. split; [reflexivity|]. repeat split; try lia.
    intros (H1 & H2 & H3 & _). rewrite H1, H2, H3 in Hfalsy. discriminate. }
  destruct ((length (clean (text desiredTermination)) =? 0)%nat
            || (8 <? length (clean (text desiredTermination)))%nat) eqn:Hlen.
  { eexists _, w. split; [reflexivity|]. repeat split; try lia.
    intros (_ & _ & _ & H). apply orb_true_iff in Hlen as [E | E];
      [apply Nat.eqb_eq in E | apply Nat.ltb_lt in E]; lia. }
  destruct (findSaltForTermination_total
              env (text deployerAddress) (text bytecodeHash)
              (clean (text desiredTermination)) (Some clamped) w)
    as (out & w' & Hrun).
  rewrite Hrun.
  pose proof Hrun as Hsound. rewrite findSaltForTermination_unfold in Hsound.
  apply search_loop_sound in Hsound as (Hle & Hbound & _).
  rewrite Z.sub_0_r in Hbound.
  destruct out as [salt address n | e]; eexists _, w';
    (split; [reflexivity|]);
    (split; [exact Hbound|]); (split; [lia|]);
    (split; [intros c Hc; rewrite Hclamp, (Hint c Hc) in Hbound; lia|]);
    intros _; eauto.
Qed.

(** ** Exhaustion *)

Lemma findSaltForTermination_exhausts (env : Env) (d h t : string)
      (cap : number) (w : World) :
  (forall k, (draws w <= k < draws w + Z.to_nat (Qceiling cap))%nat ->
             misses env d h (toLowerCase t) k) ->
  findSaltForTermination env d h t (Some cap) w
  = Some (Rejected (Error max_attempts_message),
          {| draws := draws w + Z.to_nat (Qceiling cap);
             yields := yields w + Z.to_nat (Z.max 0 (Qceiling cap) / 1000) |}).
Proof.
  intros Hmiss. rewrite findSaltForTermination_unfold.
  rewrite search_loop_exhausts.
  - rewrite !Z.sub_0_r. reflexivity.
  - lia.
  - lia.
  - intros k Hk. rewrite Z.sub_0_r in Hk. now apply Hmiss.
Qed.

(** With the random source stuck at zero, no attempt of the example request
    ends with [ffffffff]. *)
Lemma stuck_source_misses (k : nat) :
  misses Example.stuck_cancelling Example.deployer Example.empty_code_hash
         (str "ffffffff") k.
Proof.
  exists (str "0x177807Fcae3Dcf016732afC0c407CC15A3aBaa3F").
  split; vm_compute; reflexivity.
Qed.

(** The handler's answer to an accepted request whose attempts all miss. *)
Lemma post_calculate_address_exhausts (env : Env)
      (body : CalculateAddressRequest) (cap : number) (w : World) :
  accepted body ->
  req_maxAttempts body = Some cap ->
  let clamped := Qceiling (Math_min cap (inject_Z 1000000)) in
  (forall k, (draws w <= k < draws w + Z.to_nat clamped)%nat ->
             misses env (text (req_deployerAddress body))
                    (text (req_bytecodeHash body))
                    (toLowerCase (clean (text (req_desiredTermination body))))
                    k) ->
  post_calculate_address env body w
  = Some ({| status := 500; json := Failure max_attempts_message |},
          {| draws := draws w + Z.to_nat clamped;
             yields := yields w + Z.to_nat (Z.max 0 clamped / 1000) |}).
Proof.
  intros Hacc Hmax clamped Hmiss.
  rewrite post_calculate_address_accepted by exact Hacc. cbv zeta.
  rewrite Hmax, findSaltForTermination_exhausts by exact Hmiss. reflexivity.
Qed.

(** C7, counterexample.  A request with [maxAttempts] 2.5 passes
    validation and is searched with the cap [Math.min(2.5, 1000000)] = 2.5;
    the loop guard [attempts < 2.5] holds for the counter values 0, 1 and 2,
    so with a source none of whose salts matches 3 salts are drawn before
    the max-attempts error: more attempts than [min(2.5, 1000000)]. *)
Lemma fractional_cap_is_rounded_up :
  accepted (Example.request_number (str "ffffffff") (5 # 2))
  /\ Math_min (5 # 2) (inject_Z 1000000) = 5 # 2
  /\ post_calculate_address Example.stuck_cancelling
                            (Example.request_number (str "ffffffff") (5 # 2))
                            Example.start
     = Some ({| status := 500; json := Failure max_attempts_message |},
             {| draws := 3; yields := 0 |})
  /\ (Math_min (5 # 2) (inject_Z 1000000) < inject_Z (Z.of_nat 3))%Q
  /\ ~ (inject_Z (Z.of_nat (3 - draws Example.start))
        <= Math_min (5 # 2) (inject_Z 1000000))%Q.
Proof.
  assert (Hacc : accepted (Example.request_number (str "ffffffff") (5 # 2)))
    by (repeat split; cbn; lia).
  split; [exact Hacc|]. split; [reflexivity|]. split.
  - exact (post_calculate_address_exhausts
             Example.stuck_cancelling
             (Example.request_number (str "ffffffff") (5 # 2)) (5 # 2)
             Example.start Hacc eq_refl (fun k _ => stuck_source_misses k)).
  - split; [reflexivity|]. intros H. apply H. reflexivity.
Qed.

(** C4 (as the code has it).  When no attempt within the cap matches, the
    call throws [Error('Maximum attempts reached without finding suitable
    salt')] after drawing [cap] salts, and the handler answers an accepted
    request with status 500 and that message alone: the error value and
    the response are the same for every cap and carry no attempt count. *)
Theorem exhaustion_error_is_fixed_message
        (env : Env) (d h t : string) (cap : Z) (w : World) :
  (forall k, (draws w <= k < draws w + Z.to_nat cap)%nat ->
             misses env d h (toLowerCase t) k) ->
  exists w',
    findSaltForTermination env d h t (Some (inject_Z cap)) w
    = Some (Rejected (Error max_attempts_message), w')
    /\ draws w' = (draws w + Z.to_nat cap)%nat
    /\ forall body : CalculateAddressRequest,
         accepted body ->
         text (req_deployerAddress body) = d ->
         text (req_bytecodeHash body) = h ->
         clean (text (req_desiredTermination body)) = t ->
         req_maxAttempts body = Some (inject_Z cap) ->
         cap <= 1000000 ->
         post_calculate_address env body w
         = Some ({| status := 500; json := Failure max_attempts_message |},
                 w').
Proof.
  intros Hmiss. eexists. split; [|split].
  - rewrite findSaltForTermination_exhausts;
      rewrite Qceiling_Z; [reflexivity | exact Hmiss].
  - reflexivity.
  - intros body Hacc <- <- <- Hmax Hcap.
    rewrite (post_calculate_address_exhausts env body (inject_Z cap) w Hacc Hmax);
      cbv zeta; rewrite Math_min_integer, Qceiling_Z, Z.min_l by exact Hcap;
      [reflexivity | exact Hmiss].
Qed.

Lemma exhaustion_error_is_fixed_message_witness :
  (forall k, misses Example.stuck_cancelling Example.deployer
                    Example.empty_code_hash (toLowerCase (str "ffffffff")) k)
  /\ exists w',
       findSaltForTermination Example.stuck_cancelling Example.deployer
                              Example.empty_code_hash (str "ffffffff") (Some (inject_Z 2))
                              Example.start
       = Some (Rejected (Error max_attempts_message), w')
       /\ draws w' = 2%nat
       /\ post_calculate_address Example.stuck_cancelling
                                 (Example.request (str "ffffffff") 2)
                                 Example.start
          = Some ({| status := 500; json := Failure max_attempts_message |},
                  w').
Proof.
  split; [exact stuck_source_misses|].
  destruct (exhaustion_error_is_fixed_message
              Example.stuck_cancelling Example.deployer
              Example.empty_code_hash (str "ffffffff") 2 Example.start
              (fun k _ => stuck_source_misses k))
    as (w' & Hrun & Hdraws & Hhandler).
  exists w'. split; [exact Hrun|]. split; [exact Hdraws|].
  apply Hhandler; try reflexivity; [repeat split; cbn; lia | lia].
Defined.

(** C4, counterexample.  Two exhausted searches, one after 1 attempt and
    one after 2, reject with the same error value and are answered with the
    same response: the error result does not hold the attempt count. *)
Lemma exhaustion_error_omits_count :
  exists (e : exn) (response : Response) (w1 w2 : World),
    findSaltForTermination Example.stuck_cancelling Example.deployer
                           Example.empty_code_hash (str "ffffffff") (Some (inject_Z 1))
                           Example.start
    = Some (Rejected e, w1)
    /\ findSaltForTermination Example.stuck_cancelling Example.deployer
                              Example.empty_code_hash (str "ffffffff") (Some (inject_Z 2))
                              Example.start
       = Some (Rejected e, w2)
    /\ post_calculate_address Example.stuck_cancelling
                              (Example.request (str "ffffffff") 1)
                              Example.start
       = Some (response, w1)
    /\ post_calculate_address Example.stuck_cancelling
                              (Example.request (str "ffffffff") 2)
                              Example.start
       = Some (response, w2)
    /\ draws w1 = 1%nat /\ draws w2 = 2%nat
    /\ response = {| status := 500; json := Failure max_attempts_message |}.
Proof.
  assert (Hacc : forall cap, accepted (Example.request (str "ffffffff") cap))
    by (intros cap; repeat split; cbn; lia).
  exists (Error max_attempts_message),
         {| status := 500; json := Failure max_attempts_message |},
         {| draws := 1; yields := 0 |}, {| draws := 2; yields := 0 |}.
  split; [|split; [|split; [|split]]].
  - rewrite findSaltForTermination_exhausts;
      [reflexivity | intros k _; apply stuck_source_misses].
  - rewrite findSaltForTermination_exhausts;
      [reflexivity | intros k _; apply stuck_source_misses].
  - rewrite (post_calculate_address_exhausts _ _ (inject_Z 1) _ (Hacc 1) eq_refl);
      [reflexivity | intros k _; apply stuck_source_misses].
  - rewrite (post_calculate_address_exhausts _ _ (inject_Z 2) _ (Hacc 2) eq_refl);
      [reflexivity | intros k _; apply stuck_source_misses].
  - repeat split.
Qed.

(** ** Cancellation *)

Lemma search_loop_ignores_signals
      (entropy : nat -> Z) (signals1 signals2 : nat -> bool)
      (versions : string -> string)
      (d h t : string) (maxAttempts : number) (fuel : nat) :
  forall (attempts : Z) (w : World),
    search_loop (mkEnv entropy signals1 versions) fuel d h t maxAttempts attempts w =
    search_loop (mkEnv entropy signals2 versions) fuel d h t maxAttempts attempts w.
Proof.
  induction fuel as [|fuel IH]; intros attempts w; [reflexivity|].
  rewrite !search_loop_step.
  change (salt_at (mkEnv entropy signals1 versions) (draws w))
    with (salt_at (mkEnv entropy signals2 versions) (draws w)).
  destruct (attempts <? (Qceiling maxAttempts)); [|reflexivity].
  destruct (calculateCREATE2Address _ _ _) as [address | e]; [|reflexivity].
  destruct (endsWith _ _); [reflexivity|].
  rewrite IH. f_equal.
Qed.

(** C6 (as the code has it).  The search has no cancellation path.  What
    is signalled while it is parked at a yield changes neither its outcome
    nor the number of salts it draws, and the only ways it settles are a
    result, the max-attempts error after all the attempts the cap allows,
    or an argument error of the address formula. *)
Theorem search_ignores_cancellation
        (entropy : nat -> Z) (signals1 signals2 : nat -> bool)
        (versions : string -> string)
        (d h t : string) (cap : Z) (w : World) :
  findSaltForTermination (mkEnv entropy signals1 versions) d h t
                         (Some (inject_Z cap)) w
  = findSaltForTermination (mkEnv entropy signals2 versions) d h t
                           (Some (inject_Z cap)) w
  /\ exists out w',
       findSaltForTermination (mkEnv entropy signals1 versions) d h t
                              (Some (inject_Z cap)) w
       = Some (out, w')
       /\ match out with
          | Resolved _ _ attempts => 1 <= attempts <= cap
          | Rejected (Error m) =>
              m = max_attempts_message
              /\ Z.of_nat (draws w' - draws w) = Z.max 0 cap
          | Rejected (ArgumentError _ _) => True
          end.
Proof.
  split.
  - rewrite !findSaltForTermination_unfold. apply search_loop_ignores_signals.
  - destruct (findSaltForTermination_total
                (mkEnv entropy signals1 versions) d h t (Some (inject_Z cap)) w)
      as (out & w' & Hrun).
    exists out, w'. split; [exact Hrun|].
    rewrite findSaltForTermination_unfold in Hrun.
    apply search_loop_sound in Hrun as (_ & _ & Hout).
    rewrite Qceiling_Z in Hout.
    destruct out as [salt address n | [reason value | m]].
    + destruct Hout as (_ & Hn & _). lia.
    + exact I.
    + destruct Hout as (-> & Hn). split; [reflexivity | lia].
Qed.

(** C6, counterexample.  A search with cap 1001 whose attempts all miss
    yields once, after attempt 1000; a cancellation is signalled during
    that yield, before the cap is reached.  The search resumes, makes
    attempt 1001 and throws the max-attempts error: all 1001 attempts
    were made and the error is the exhaustion error. *)
Lemma cancellation_signal_is_ignored :
  cancel_signal Example.stuck_cancelling 0 = true
  /\ findSaltForTermination Example.stuck_cancelling Example.deployer
                            Example.empty_code_hash (str "ffffffff")
                            (Some (inject_Z 1001)) Example.start
     = Some (Rejected (Error max_attempts_message),
             {| draws := 1001; yields := 1 |}).
Proof.
  split; [reflexivity|].
  rewrite findSaltForTermination_exhausts.
  - reflexivity.
  - intros k _. apply stuck_source_misses.
Qed.

(** ** Validation of the termination *)

(** C5 (as the code has it).  When the termination, lower-cased and
    stripped of non-hex characters, is empty or longer than 8 characters,
    /calculate-address answers 400 and starts no search (the world is
    untouched).  /validate-termination answers 400 only when the field is
    missing or empty; otherwise it answers 200 with a report marked
    invalid, of difficulty and time Unknown.  Stripping leaves no character
    outside [0-9a-f]. *)
Theorem invalid_termination_handling
        (env : Env) (deployerAddress bytecodeHash termination : option string)
        (maxAttempts : option number) (w : World) :
  let cleaned := clean (text termination) in
  length cleaned = 0%nat \/ (8 < length cleaned)%nat ->
  forallb is_lower_hex cleaned = true
  /\ (exists error,
        post_calculate_address
          env {| req_deployerAddress := deployerAddress;
                 req_bytecodeHash := bytecodeHash;
                 req_desiredTermination := termination;
                 req_maxAttempts := maxAttempts |} w
        = Some ({| status := 400; json := Failure error |}, w))
  /\ post_validate_termination termination
     = if falsy termination
       then {| status := 400; json := Failure (str "termination is required") |}
       else {| status := 200;
               json := Report false cleaned (str "Unknown") (str "Unknown") 8 |}.
Proof.
  intros cleaned Hbad. split; [apply clean_lower_hex|]. split.
  - unfold post_calculate_address. cbv zeta.
    cbn [req_deployerAddress req_bytecodeHash req_desiredTermination
         req_maxAttempts].
    destruct (falsy deployerAddress || falsy bytecodeHash || falsy termination);
      [eauto|].
    fold cleaned.
    destruct (Nat.eqb_spec (length cleaned) 0) as [E0 | E0]; cbn [orb];
      [eauto|].
    destruct (Nat.ltb_spec 8 (length cleaned)) as [E8 | E8]; [eauto | lia].
  - unfold post_validate_termination.
    destruct (falsy termination); [reflexivity|].
    cbv zeta. fold cleaned.
    destruct Hbad as [E0 | E8].
    + rewrite E0. reflexivity.
    + destruct (Nat.leb_spec (length cleaned) 8) as [E | _]; [lia|].
      rewrite !andb_false_r. reflexivity.
Qed.

Lemma invalid_termination_handling_witness :
  (8 < length (clean (str "12:34:56:78:9a")))%nat
  /\ (exists error,
        post_calculate_address
          Example.counting (Example.request (str "12:34:56:78:9a") 10)
          Example.start
        = Some ({| status := 400; json := Failure error |}, Example.start))
  /\ post_validate_termination (Some (str "12:34:56:78:9a"))
     = {| status := 200;
          json := Report false (str "123456789a") (str "Unknown")
                         (str "Unknown") 8 |}.
Proof.
  assert (Hlen : (8 < length (clean (str "12:34:56:78:9a")))%nat)
    by (cbn; lia).
  split; [exact Hlen|].
  exact (proj2 (invalid_termination_handling
                  Example.counting (Some Example.deployer)
                  (Some Example.empty_code_hash)
                  (Some (str "12:34:56:78:9a")) (Some (inject_Z 10))
                  Example.start
                  (or_intror Hlen))).
Defined.

(** C5, counterexample.  The termination [123456789] is nine hex
    characters, one too many; /validate-termination answers it with status
    200 and a report ([success: true], [valid: false]), not with an
    error. *)
Lemma validate_termination_reports_invalid :
  clean (str "123456789") = str "123456789"
  /\ (8 < length (clean (str "123456789")))%nat
  /\ post_validate_termination (Some (str "123456789"))
     = {| status := 200;
          json := Report false (str "123456789") (str "Unknown")
                         (str "Unknown") 8 |}.
Proof.
  split; [reflexivity|]. split; [cbn; lia | reflexivity].
Qed.

(** ** The difficulty estimate *)

Lemma length_cases_1_8 (n : nat) :
  (1 <= n <= 8)%nat ->
  n = 1%nat \/ n = 2%nat \/ n = 3%nat \/ n = 4%nat
  \/ n = 5%nat \/ n = 6%nat \/ n = 7%nat \/ n = 8%nat.
Proof. lia. Qed.

Lemma falsy_of_clean (termination : option string) :
  (1 <= length (clean (text termination)))%nat -> falsy termination = false.
Proof.
  destruct termination as [[|c s]|]; cbn; intros H; [lia | reflexivity | lia].
Qed.

Lemma validate_termination_valid (termination : option string) :
  (1 <= length (clean (text termination)) <= 8)%nat ->
  let tier := tier_of_attempts (16 ^ Z.of_nat (length (clean (text termination)))) in
  post_validate_termination termination
  = {| status := 200;
       json := Report true (clean (text termination)) (tier_label tier)
                      (tier_time tier) 8 |}.
Proof.
  intros Hlen. unfold post_validate_termination.
  rewrite falsy_of_clean by lia. cbv zeta.
  rewrite clean_lower_hex.
  destruct (length_cases_1_8 _ Hlen) as [E|[E|[E|[E|[E|[E|[E|E]]]]]]];
    rewrite !E; reflexivity.
Qed.

Lemma tier_of_attempts_monotone (L1 L2 : nat) :
  (L1 <= L2)%nat ->
  (tier_rank (tier_of_attempts (16 ^ Z.of_nat L1))
   <= tier_rank (tier_of_attempts (16 ^ Z.of_nat L2)))%nat.
Proof.
  intros Hle.
  assert (Hpow : 16 ^ Z.of_nat L1 <= 16 ^ Z.of_nat L2)
    by (apply Z.pow_le_mono_r; lia).
  unfold tier_of_attempts.
  change (2 ^ 8) with 256. change (2 ^ 12) with 4096.
  change (2 ^ 16) with 65536. change (2 ^ 20) with 1048576.
  repeat match goal with
         | |- context [?a <? ?b] => destruct (Z.ltb_spec a b)
         end; cbn [tier_rank]; lia.
Qed.

(** C8.  For a termination whose cleaned form has length [L] between 1 and
    8, /validate-termination reports it valid with the one tier that the
    thresholds give for [16^L] expected attempts: below [2^8] Very Easy /
    Instant, below [2^12] Easy / Few seconds, below [2^16] Medium / Few
    minutes, below [2^20] Hard / Few hours, otherwise Very Hard / Days or
    weeks.  For two such terminations, the longer one never gets the lower
    tier. *)
Theorem difficulty_tiers (t1 t2 : option string) :
  let L1 := length (clean (text t1)) in
  let L2 := length (clean (text t2)) in
  (1 <= L1 <= 8)%nat -> (1 <= L2 <= 8)%nat ->
  let tier1 := tier_of_attempts (16 ^ Z.of_nat L1) in
  let tier2 := tier_of_attempts (16 ^ Z.of_nat L2) in
  post_validate_termination t1
  = {| status := 200;
       json := Report true (clean (text t1)) (tier_label tier1)
                      (tier_time tier1) 8 |}
  /\ difficulty_of (post_validate_termination t1) = tier_label tier1
  /\ difficulty_of (post_validate_termination t2) = tier_label tier2
  /\ ((L1 <= L2)%nat -> (tier_rank tier1 <= tier_rank tier2)%nat).
Proof.
  intros L1 L2 H1 H2 tier1 tier2.
  rewrite (validate_termination_valid t1 H1),
          (validate_termination_valid t2 H2).
  repeat split. apply tier_of_attempts_monotone.
Qed.

Lemma difficulty_tiers_witness :
  ((1 <= length (clean (str "DE:AD")) <= 8)%nat
   /\ (1 <= length (clean (str "c0ffee")) <= 8)%nat)
  /\ post_validate_termination (Some (str "DE:AD"))
     = {| status := 200;
          json := Report true (str "dead") (str "Hard") (str "Few hours") 8 |}
  /\ difficulty_of (post_validate_termination (Some (str "DE:AD")))
     = str "Hard"
  /\ difficulty_of (post_validate_termination (Some (str "c0ffee")))
     = str "Very Hard"
  /\ ((4 <= 6)%nat -> (tier_rank Hard <= tier_rank VeryHard)%nat).
Proof.
  assert (H1 : (1 <= length (clean (str "DE:AD")) <= 8)%nat) by (cbn; lia).
  assert (H2 : (1 <= length (clean (str "c0ffee")) <= 8)%nat) by (cbn; lia).
  split; [split; assumption|].
  exact (difficulty_tiers (Some (str "DE:AD")) (Some (str "c0ffee")) H1 H2).
Defined.

(** ** Inputs of the wrong width *)

Lemma mod_2_eqb_even (n : nat) : Nat.eqb (n mod 2) 0 = Nat.even n.
Proof.
  destruct (Nat.even n) eqn:Heven.
  - apply Nat.even_spec in Heven as [k ->].
    now rewrite Nat.mul_comm, Nat.Div0.mod_mul.
  - destruct (Nat.eqb_spec (n mod 2) 0) as [E | E]; [|reflexivity].
    apply Nat.Div0.mod_divides in E as [k Hk].
    assert (Nat.even n = true) by (apply Nat.even_spec; now exists k).
    congruence.
Qed.

Lemma isHexString_prefix (value : string) :
  Ethers.isHexString value = true ->
  exists digits, value = "0"%char :: "x"%char :: digits.
Proof.
  destruct value as [|c0 [|c1 digits]]; [discriminate | |].
  - destruct c0 as [[] [] [] [] [] [] [] []]; discriminate.
  - destruct c0 as [[] [] [] [] [] [] [] []]; try discriminate.
    destruct c1 as [[] [] [] [] [] [] [] []]; try discriminate.
    intros _. now exists digits.
Qed.

(** [arrayify] accepts exactly the [0x]-prefixed hex text of even length,
    whatever that length is. *)
Lemma arrayify_ok_iff (value : string) :
  (exists bytes, Ethers.arrayify value = Ok bytes) <->
  Ethers.isHexString value = true /\ Nat.even (length value) = true.
Proof.
  unfold Ethers.arrayify.
  destruct (Ethers.isHexString value) eqn:Hhex.
  - destruct (isHexString_prefix value Hhex) as [digits ->].
    unfold substring_from. cbn [skipn length]. rewrite mod_2_eqb_even.
    change (Nat.even (S (S (length digits)))) with (Nat.even (length digits)).
    destruct (Nat.even (length digits)).
    + split; eauto.
    + split; [intros [? [=]] | intros [_ [=]]].
  - split; [intros [? [=]] | intros [[=] _]].
Qed.

(** C9 (as the code has it).  The formula checks no width.  When the three
    arguments are hex data of any length, it returns the checksum rendering
    of the low 20 bytes of the digest of [0xff] followed by their bytes as
    given, neither truncated nor padded; it throws only when an argument is
    not [0x]-prefixed hex text of even length, with the error of the first
    such argument. *)
Theorem calculateCREATE2Address_any_width (sd ss sh : string) :
  calculateCREATE2Address sd ss sh =
  match Ethers.arrayify sd, Ethers.arrayify ss, Ethers.arrayify sh with
  | Ok d, Ok s, Ok h =>
      Ok (Reference.checksum_encode
            (Reference.low_bytes 20
               (Keccak.keccak_256 ([0xff] ++ d ++ s ++ h))))
  | Throw e, _, _ => Throw e
  | Ok _, Throw e, _ => Throw e
  | Ok _, Ok _, Throw e => Throw e
  end.
Proof.
  rewrite calculateCREATE2Address_concat. cbn [Ethers.concat].
  change (Ethers.arrayify (str "0xff")) with (@Ok (list Z) [255]).
  destruct (Ethers.arrayify sd) as [d | e]; [|reflexivity].
  destruct (Ethers.arrayify ss) as [s | e]; [|reflexivity].
  destruct (Ethers.arrayify sh) as [h | e]; [|reflexivity].
  cbn [JS.bind]. now rewrite app_nil_r.
Qed.

(** C9, counterexample.  A deployer of 19 bytes is hex data; the formula
    returns an address for it. *)
Lemma short_deployer_is_accepted :
  Ethers.arrayify Example.short_deployer
  = Ok (Ethers.parse_pairs (str "Ab5801a7D398351b8bE11C439e05C5B3259aeC"))
  /\ length (Ethers.parse_pairs (str "Ab5801a7D398351b8bE11C439e05C5B3259aeC"))
     = 19%nat
  /\ calculateCREATE2Address Example.short_deployer Example.zero_salt
                             Example.empty_code_hash
     = Ok (str "0x69ff46b6e0D9b30866a5537617f42Ae1D02D5907").
Proof.
  split; [vm_compute; reflexivity|].
  split; [vm_compute; reflexivity|].
  vm_compute. reflexivity.
Qed.

(** * Further properties *)

(** ** The network table *)

Lemma capitalize_words_length (s : string) :
  forall after_word, length (Networks.capitalize_words after_word s) = length s.
Proof.
  induction s as [|c s IH]; intros after_word; [reflexivity|].
  cbn [Networks.capitalize_words length]. now rewrite IH.
Qed.

Lemma replace_first_length (old new : ascii) (s : string) :
  length (Networks.replace_first old new s) = length s.
Proof.
  induction s as [|c s IH]; [reflexivity|].
  cbn [Networks.replace_first]. destruct (Ascii.eqb c old); cbn [length];
    [reflexivity | now rewrite IH].
Qed.

Lemma toUpperCase_toLowerCase (c : ascii) :
  char_toLowerCase (char_toUpperCase c) = char_toLowerCase c.
Proof.
  destruct c as [[] [] [] [] [] [] [] []]; vm_compute; reflexivity.
Qed.

Lemma capitalize_words_toLowerCase (s : string) :
  forall after_word,
    toLowerCase (Networks.capitalize_words after_word s) = toLowerCase s.
Proof.
  induction s as [|c s IH]; intros after_word; [reflexivity|].
  cbn [Networks.capitalize_words toLowerCase map].
  fold (toLowerCase (Networks.capitalize_words (Networks.is_word c) s)).
  fold (toLowerCase s). rewrite IH. f_equal.
  destruct (negb after_word && Networks.is_word c);
    [apply toUpperCase_toLowerCase | reflexivity].
Qed.

Lemma capitalized_is_hyphen (b : bool) (c : ascii) :
  Ascii.eqb (if b && Networks.is_word c then char_toUpperCase c else c) "-"
  = Ascii.eqb c "-".
Proof.
  destruct b; [|reflexivity].
  destruct c as [[] [] [] [] [] [] [] []]; vm_compute; reflexivity.
Qed.

Lemma count_hyphen_cons (c : ascii) (s : string) :
  count_occ ascii_dec (c :: s) "-"%char =
  ((if Ascii.eqb c "-" then 1 else 0) + count_occ ascii_dec s "-"%char)%nat.
Proof.
  cbn [count_occ]. destruct (ascii_dec c "-"%char) as [-> | N].
  - reflexivity.
  - apply Ascii.eqb_neq in N. now rewrite N.
Qed.

Lemma capitalize_words_hyphens (s : string) :
  forall after_word,
    count_occ ascii_dec (Networks.capitalize_words after_word s) "-"%char
    = count_occ ascii_dec s "-"%char.
Proof.
  induction s as [|c s IH]; intros after_word; [reflexivity|].
  cbn [Networks.capitalize_words].
  now rewrite !count_hyphen_cons, capitalized_is_hyphen, IH.
Qed.

Lemma replace_first_hyphens (s : string) :
  count_occ ascii_dec (Networks.replace_first "-" " " s) "-"%char
  = pred (count_occ ascii_dec s "-"%char).
Proof.
  induction s as [|c s IH]; [reflexivity|].
  cbn [Networks.replace_first]. rewrite count_hyphen_cons.
  destruct (Ascii.eqb c "-") eqn:E.
  - rewrite count_hyphen_cons. reflexivity.
  - rewrite count_hyphen_cons, E, IH. reflexivity.
Qed.

Lemma replace_first_toLowerCase (s : string) :
  toLowerCase (Networks.replace_first "-" " " s)
  = Networks.replace_first "-" " " (toLowerCase s).
Proof.
  induction s as [|c s IH]; [reflexivity|].
  cbn [Networks.replace_first toLowerCase map]. fold (toLowerCase s).
  assert (E : Ascii.eqb (char_toLowerCase c) "-" = Ascii.eqb c "-")
    by (destruct c as [[] [] [] [] [] [] [] []]; vm_compute; reflexivity).
  rewrite E. destruct (Ascii.eqb c "-"); cbn [toLowerCase map].
  - reflexivity.
  - fold (toLowerCase (Networks.replace_first "-" " " s)). now rewrite IH.
Qed.

(** X1.  The display name of a network key has the length of the key; up
    to letter case it is the key with its first hyphen turned into a space;
    every later hyphen stays. *)
Theorem display_name_shape (key : string) :
  length (Networks.display_name key) = length key
  /\ toLowerCase (Networks.display_name key)
     = Networks.replace_first "-" " " (toLowerCase key)
  /\ count_occ ascii_dec (Networks.display_name key) "-"%char
     = pred (count_occ ascii_dec key "-"%char).
Proof.
  unfold Networks.display_name. split; [|split].
  - now rewrite capitalize_words_length, replace_first_length.
  - now rewrite capitalize_words_toLowerCase, replace_first_toLowerCase.
  - now rewrite capitalize_words_hyphens, replace_first_hyphens.
Qed.

(** X2.  The answer of GET /networks is the same in every environment: the
    six networks in the order of the table, with their display names, chain
    ids and explorers, and nothing of the RPC endpoints (which may hold an
    API key). *)
Theorem get_networks_table (env : Networks.ProcessEnv) :
  Networks.get_networks env =
  [ Networks.mkNetworkInfo (str "ethereum") (str "Ethereum") 1
                           (str "https://etherscan.io");
    Networks.mkNetworkInfo (str "ethereum-goerli") (str "Ethereum Goerli") 5
                           (str "https://goerli.etherscan.io");
    Networks.mkNetworkInfo (str "bsc") (str "Bsc") 56
                           (str "https://bscscan.com");
    Networks.mkNetworkInfo (str "bsc-testnet") (str "Bsc Testnet") 97
                           (str "https://testnet.bscscan.com");
    Networks.mkNetworkInfo (str "polygon") (str "Polygon") 137
                           (str "https://polygonscan.com");
    Networks.mkNetworkInfo (str "polygon-mumbai") (str "Polygon Mumbai") 80001
                           (str "https://mumbai.polygonscan.com") ]
  /\ NoDup (map Networks.info_id (Networks.get_networks env))
  /\ NoDup (map Networks.info_chainId (Networks.get_networks env)).
Proof.
  split; [reflexivity|]. split.
  - cbn. repeat (constructor; [cbn; intuition discriminate|]). constructor.
  - cbn. repeat (constructor; [cbn; intuition discriminate|]). constructor.
Qed.

Lemma env_or_nonempty (env : Networks.ProcessEnv) (name fallback : string) :
  fallback <> [] -> Networks.env_or env name fallback <> [].
Proof.
  unfold Networks.env_or. destruct (env name) as [[|c s]|]; congruence.
Qed.

(** X3.  The network table reads seven environment variables and no other:
    two environments that agree on them give the same table.  Every RPC
    endpoint of the table is a non-empty string, whatever the environment
    holds. *)
Theorem networks_environment (env1 env2 : Networks.ProcessEnv) :
  (forall name, In name Networks.variables_read -> env1 name = env2 name) ->
  Networks.networks env1 = Networks.networks env2
  /\ forall key network,
       In (key, network) (Networks.networks env1) ->
       Networks.rpc network <> [].
Proof.
  intros Hagree. split.
  - unfold Networks.networks, Networks.env_or, Networks.append_env.
    rewrite !Hagree by (cbn; tauto). reflexivity.
  - intros key network Hin. cbn [Networks.networks In] in Hin.
    repeat (destruct Hin as [[= <- <-] | Hin];
            [cbn [Networks.rpc]; apply env_or_nonempty;
             unfold Networks.append_env; cbn; discriminate|]).
    contradiction.
Qed.

Lemma networks_environment_witness :
  let unset : Networks.ProcessEnv := fun _ => None in
  let readme : Networks.ProcessEnv :=
    fun name =>
      if string_eqb name (str "BSC_RPC_URL")
      then Some (str "https://bsc.example.org")
      else None in
  readme (str "BSC_RPC_URL") = Some (str "https://bsc.example.org")
  /\ Networks.networks unset = Networks.networks readme.
Proof.
  intros unset readme. split; [reflexivity|].
  refine (proj1 (networks_environment unset readme _)).
  intros name Hin. cbn in Hin.
  repeat (destruct Hin as [<- | Hin]; [reflexivity|]). contradiction.
Defined.

(** ** The address formula, further *)

Lemma arrayify_throws (value : string) (e : exn) :
  Ethers.arrayify value = Throw e ->
  e = ArgumentError (str "invalid arrayify value") value
  \/ e = ArgumentError (str "hex data is odd-length") value.
Proof.
  unfold Ethers.arrayify.
  destruct (Ethers.isHexString value); [destruct (Nat.eqb _ 0)|];
    intros [= <-]; auto.
Qed.

Lemma arrayify_ok_or_throws (value : string) :
  (exists bytes, Ethers.arrayify value = Ok bytes)
  \/ (exists e, Ethers.arrayify value = Throw e).
Proof. destruct (Ethers.arrayify value); eauto. Qed.

(** X4.  [calculateCREATE2Address] returns an address exactly when each of
    its three arguments is ["0x"] followed by an even number of hex digits;
    otherwise it throws the argument error of an argument that is not,
    whose reason is "invalid arrayify value" or "hex data is odd-length"
    and whose value is that argument. *)
Theorem calculateCREATE2Address_ok_iff (d s h : string) :
  ((exists address, calculateCREATE2Address d s h = Ok address)
   <-> hex_data d /\ hex_data s /\ hex_data h)
  /\ forall e,
       calculateCREATE2Address d s h = Throw e ->
       exists value,
         (value = d \/ value = s \/ value = h)
         /\ Ethers.arrayify value = Throw e
         /\ (e = ArgumentError (str "invalid arrayify value") value
             \/ e = ArgumentError (str "hex data is odd-length") value).
Proof.
  rewrite calculateCREATE2Address_concat. cbn [Ethers.concat].
  change (Ethers.arrayify (str "0xff")) with (@Ok (list Z) [255]).
  unfold hex_data. rewrite <- !arrayify_ok_iff.
  destruct (Ethers.arrayify d) as [bd | ed] eqn:Hd;
    [destruct (Ethers.arrayify s) as [bs | es] eqn:Hs;
     [destruct (Ethers.arrayify h) as [bh | eh] eqn:Hh|]|];
    cbn [JS.bind]; split.
  - split; [intros _; repeat split; eauto | intros _; eauto].
  - discriminate.
  - split; [intros [? [=]] | intros (_ & _ & [? [=]])].
  - intros e [= <-]. exists h. split; [auto|]. split; [exact Hh|].
    now apply arrayify_throws.
  - split; [intros [? [=]] | intros (_ & [? [=]] & _)].
  - intros e [= <-]. exists s. split; [auto|]. split; [exact Hs|].
    now apply arrayify_throws.
  - split; [intros [? [=]] | intros ([? [=]] & _)].
  - intros e [= <-]. exists d. split; [auto|]. split; [exact Hd|].
    now apply arrayify_throws.
Qed.

Lemma hex_value_toLowerCase (c : ascii) :
  Ethers.hex_value (char_toLowerCase c) = Ethers.hex_value c.
Proof.
  destruct c as [[] [] [] [] [] [] [] []]; vm_compute; reflexivity.
Qed.

Lemma is_hex_toLowerCase (c : ascii) :
  is_hex c = true -> is_hex (char_toLowerCase c) = true.
Proof.
  destruct c as [[] [] [] [] [] [] [] []]; vm_compute; congruence.
Qed.

Lemma parse_pairs_toLowerCase (digits : string) :
  Ethers.parse_pairs (toLowerCase digits) = Ethers.parse_pairs digits.
Proof.
  revert digits.
  fix IH 1. intros [|c1 [|c2 rest]]; [reflexivity | reflexivity |].
  cbn [toLowerCase map Ethers.parse_pairs]. fold (toLowerCase rest).
  now rewrite !hex_value_toLowerCase, IH.
Qed.

Lemma arrayify_toLowerCase (value : string) (bytes : list Z) :
  Ethers.arrayify value = Ok bytes ->
  Ethers.arrayify (toLowerCase value) = Ok bytes.
Proof.
  intros Hok.
  assert (Hdata : Ethers.isHexString value = true
                  /\ Nat.even (length value) = true)
    by (apply arrayify_ok_iff; eauto).
  destruct Hdata as [Hhex Heven].
  destruct (isHexString_prefix value Hhex) as [digits ->].
  change ("0"%char :: "x"%char :: digits) with (str "0x" ++ digits) in *.
  assert (Hdigits : forallb is_hex digits = true) by exact Hhex.
  assert (Hlen : Nat.even (length digits) = true) by exact Heven.
  rewrite arrayify_0x in Hok by assumption. injection Hok as <-.
  change (toLowerCase (str "0x" ++ digits))
    with (str "0x" ++ toLowerCase digits).
  rewrite arrayify_0x.
  - now rewrite parse_pairs_toLowerCase.
  - apply forallb_forall. intros c Hc. unfold toLowerCase in Hc.
    apply in_map_iff in Hc as (c' & <- & Hc').
    apply is_hex_toLowerCase. rewrite forallb_forall in Hdigits. auto.
  - unfold toLowerCase. now rewrite length_map.
Qed.

(** One computed address, shared by the examples below. *)
Lemma example_address :
  calculateCREATE2Address Example.deployer Example.zero_salt
                          Example.empty_code_hash
  = Ok (str "0x177807Fcae3Dcf016732afC0c407CC15A3aBaa3F").
Proof. vm_compute. reflexivity. Qed.

(** X5.  The letter case of the hex digits of the arguments does not
    matter: when the formula returns an address, it returns the same
    address for the lower-cased arguments (a checksummed deployer and its
    lower-case form give one address). *)
Theorem calculateCREATE2Address_case_insensitive (d s h address : string) :
  calculateCREATE2Address d s h = Ok address ->
  calculateCREATE2Address (toLowerCase d) (toLowerCase s) (toLowerCase h)
  = Ok address.
Proof.
  rewrite !calculateCREATE2Address_concat. cbn [Ethers.concat].
  change (Ethers.arrayify (str "0xff")) with (@Ok (list Z) [255]).
  destruct (Ethers.arrayify d) as [bd | ed] eqn:Hd; [|discriminate].
  destruct (Ethers.arrayify s) as [bs | es] eqn:Hs; [|discriminate].
  destruct (Ethers.arrayify h) as [bh | eh] eqn:Hh; [|discriminate].
  rewrite (arrayify_toLowerCase d bd Hd), (arrayify_toLowerCase s bs Hs),
          (arrayify_toLowerCase h bh Hh).
  cbn [JS.bind]. auto.
Qed.

Lemma calculateCREATE2Address_case_insensitive_witness :
  calculateCREATE2Address Example.deployer Example.zero_salt
                          Example.empty_code_hash
  = Ok (str "0x177807Fcae3Dcf016732afC0c407CC15A3aBaa3F")
  /\ toLowerCase Example.deployer
     = str "0xab5801a7d398351b8be11c439e05c5b3259aec9b"
  /\ calculateCREATE2Address (toLowerCase Example.deployer)
                             (toLowerCase Example.zero_salt)
                             (toLowerCase Example.empty_code_hash)
     = Ok (str "0x177807Fcae3Dcf016732afC0c407CC15A3aBaa3F").
Proof.
  split; [exact example_address|]. split; [reflexivity|].
  exact (calculateCREATE2Address_case_insensitive _ _ _ _ example_address).
Defined.

Lemma checksum_chars_length (hex_addr : string) :
  forall hashed_address,
    (length hex_addr <= length hashed_address)%nat ->
    length (Reference.checksum_chars hex_addr hashed_address)
    = length hex_addr.
Proof.
  induction hex_addr as [|c cs IH]; intros [|n ns] Hlen; cbn in Hlen |- *;
    try reflexivity; try lia.
  rewrite IH by lia. reflexivity.
Qed.

Lemma upper_of_lower_hex_is_hex (c : ascii) :
  is_lower_hex c = true -> is_hex (char_toUpperCase c) = true.
Proof.
  destruct c as [[] [] [] [] [] [] [] []]; vm_compute; congruence.
Qed.

Lemma checksum_chars_hex (hex_addr : string) :
  forall hashed_address,
    forallb is_lower_hex hex_addr = true ->
    forallb is_hex (Reference.checksum_chars hex_addr hashed_address) = true.
Proof.
  induction hex_addr as [|c cs IH]; intros [|n ns] Hlower;
    try reflexivity.
  cbn [forallb] in Hlower. apply andb_true_iff in Hlower as [Hc Hcs].
  cbn [Reference.checksum_chars forallb]. rewrite IH by exact Hcs.
  destruct (is_af c && (7 <? Ethers.hex_value n)).
  - now rewrite upper_of_lower_hex_is_hex.
  - now rewrite lower_hex_is_hex.
Qed.

Lemma getAddress_checksum_encode (addr : list Z) :
  length addr = 20%nat ->
  Ethers.getAddress (Reference.checksum_encode addr)
  = Ok (Reference.checksum_encode addr).
Proof.
  intros Hlen.
  pose proof (toLowerCase_checksum_encode addr ltac:(lia)) as Hlow.
  pose proof (getChecksumAddress_hex addr Hlen) as Hsum.
  assert (Hshape :
            Ethers.isHexStringOfLength (Reference.checksum_encode addr) 20
            = true).
  { unfold Ethers.isHexStringOfLength, Reference.checksum_encode. cbv zeta.
    rewrite isHexString_0x, str_0x_app.
    rewrite checksum_chars_hex by apply hex_of_bytes_lower.
    cbn [length andb].
    rewrite checksum_chars_length
      by (rewrite !hex_of_bytes_length, keccak_256_length; lia).
    rewrite hex_of_bytes_length, Hlen. reflexivity. }
  assert (Hchecksum :
            Ethers.getChecksumAddress (Reference.checksum_encode addr)
            = Ok (Reference.checksum_encode addr)).
  { rewrite <- Hsum. unfold Ethers.getChecksumAddress.
    rewrite Hshape, isHexStringOfLength_hex by exact Hlen.
    cbv zeta. rewrite Hlow.
    change (toLowerCase (str "0x" ++ Hex.hex_of_bytes addr))
      with (str "0x" ++ toLowerCase (Hex.hex_of_bytes addr)).
    now rewrite toLowerCase_lower_hex by apply hex_of_bytes_lower. }
  unfold Ethers.getAddress, Ethers.is_plain_address.
  rewrite Hshape, orb_true_r.
  assert (Hprefix : substring_to 2 (Reference.checksum_encode addr) = str "0x")
    by reflexivity.
  rewrite Hprefix, string_eqb_refl, Hchecksum. cbn [JS.bind].
  now rewrite string_eqb_refl, andb_false_r.
Qed.

(** X6.  An address returned by the formula is 42 characters long and a
    valid checksummed address for [getAddress]: [getAddress] returns it
    unchanged, and returns it again from its lower-case form. *)
Theorem calculateCREATE2Address_checksummed (d s h address : string) :
  calculateCREATE2Address d s h = Ok address ->
  length address = 42%nat
  /\ Ethers.getAddress address = Ok address
  /\ Ethers.getAddress (toLowerCase address) = Ok address.
Proof.
  rewrite calculateCREATE2Address_concat.
  destruct (Ethers.concat _) as [concatenated | e]; [|discriminate].
  intros [= <-].
  pose proof (low_bytes_length concatenated) as Hlen.
  split; [|split].
  - unfold Reference.checksum_encode. cbv zeta. rewrite str_0x_app.
    cbn [length].
    rewrite checksum_chars_length
      by (rewrite !hex_of_bytes_length, keccak_256_length; lia).
    now rewrite hex_of_bytes_length, Hlen.
  - now apply getAddress_checksum_encode.
  - rewrite toLowerCase_checksum_encode by lia.
    now apply getAddress_hex.
Qed.

Lemma calculateCREATE2Address_checksummed_witness :
  calculateCREATE2Address Example.deployer Example.zero_salt
                          Example.empty_code_hash
  = Ok (str "0x177807Fcae3Dcf016732afC0c407CC15A3aBaa3F")
  /\ length (str "0x177807Fcae3Dcf016732afC0c407CC15A3aBaa3F") = 42%nat
  /\ Ethers.getAddress (str "0x177807Fcae3Dcf016732afC0c407CC15A3aBaa3F")
     = Ok (str "0x177807Fcae3Dcf016732afC0c407CC15A3aBaa3F")
  /\ Ethers.getAddress
       (toLowerCase (str "0x177807Fcae3Dcf016732afC0c407CC15A3aBaa3F"))
     = Ok (str "0x177807Fcae3Dcf016732afC0c407CC15A3aBaa3F").
Proof.
  split; [exact example_address|].
  exact (calculateCREATE2Address_checksummed _ _ _ _ example_address).
Defined.

(** ** The search, further *)

Lemma be_bytes_length (size : nat) (z : Z) :
  length (Node.be_bytes size z) = size.
Proof. unfold Node.be_bytes. now rewrite length_map, length_seq. Qed.

Lemma be_bytes_are_bytes (size : nat) (z : Z) :
  Forall is_byte (Node.be_bytes size z).
Proof.
  unfold Node.be_bytes. apply Forall_map, Forall_forall. intros k _.
  unfold is_byte. change 255 with (Z.ones 8). rewrite Z.land_ones by lia.
  change (2 ^ 8) with 256. apply Z.mod_pos_bound. lia.
Qed.

Lemma salt_at_arrayify (env : Env) (k : nat) :
  Ethers.arrayify (salt_at env k) = Ok (Node.be_bytes 32 (entropy env k)).
Proof.
  unfold salt_at, Node.toString_hex.
  apply arrayify_hex_of_bytes, be_bytes_are_bytes.
Qed.

(** Before the attempt that resolves the search, every attempt missed. *)
Lemma search_loop_first_hit (env : Env) (d h t : string) (maxAttempts : number)
      (fuel : nat) :
  forall (attempts : Z) (w w' : World) (salt address : string) (n : Z),
    search_loop env fuel d h t maxAttempts attempts w
    = Some (Resolved salt address n, w') ->
    forall k, (draws w <= k < draws w' - 1)%nat -> misses env d h t k.
Proof.
  induction fuel as [|fuel IH]; intros attempts w w' salt address n;
    [discriminate|].
  rewrite search_loop_step.
  destruct (attempts <? (Qceiling maxAttempts)); [|discriminate].
  destruct (calculateCREATE2Address _ _ _) as [candidate | e] eqn:Hcalc;
    [|discriminate].
  destruct (endsWith _ _) eqn:Hends.
  - intros [= <- <- <- <-] k Hk. cbn [draws after_draw] in Hk. lia.
  - intros Hrun k Hk.
    destruct (Nat.eq_dec k (draws w)) as [-> | Hne].
    + exists candidate. split; assumption.
    + eapply IH; [exact Hrun|].
      rewrite draws_after_count. cbn [draws after_draw]. lia.
Qed.

(** When the attempts before read [draws w + j] miss and that one hits, the
    loop resolves there. *)
Lemma search_loop_hits (env : Env) (d h t : string) (maxAttempts : number)
      (address : string) (j : nat) :
  forall (fuel : nat) (attempts : Z) (w : World),
    0 <= attempts ->
    attempts + Z.of_nat j < (Qceiling maxAttempts) ->
    (j < fuel)%nat ->
    (forall k, (draws w <= k < draws w + j)%nat -> misses env d h t k) ->
    calculateCREATE2Address d (salt_at env (draws w + j)) h = Ok address ->
    endsWith (toLowerCase address) t = true ->
    search_loop env fuel d h t maxAttempts attempts w
    = Some (Resolved (salt_at env (draws w + j)) address
                     (attempts + Z.of_nat j + 1),
            {| draws := draws w + j + 1;
               yields := yields w
                         + Z.to_nat ((attempts + Z.of_nat j) / 1000
                                     - attempts / 1000) |}).
Proof.
  induction j as [|j IH]; intros fuel attempts w Hpos Hcap Hfuel Hmiss Hcalc Hends;
    (destruct fuel as [|fuel]; [lia|]); rewrite search_loop_step;
    (destruct (Z.ltb_spec attempts (Qceiling maxAttempts)) as [_ | Hge]; [|lia]).
  - rewrite Nat.add_0_r in *. rewrite Hcalc, Hends.
    rewrite Z.add_0_r, Z.sub_diag. cbn [Z.to_nat].
    unfold after_draw. do 3 f_equal; lia.
  - destruct (Hmiss (draws w)) as (candidate & -> & ->); [lia|].
    pose proof (yields_after_count env (attempts + 1) (after_draw w)) as Hy.
    cbn [yields after_draw] in Hy.
    replace (attempts + 1 - 1) with attempts in Hy by lia.
    rewrite (IH fuel (attempts + 1)
                (after_count env (attempts + 1) (after_draw w))).
    + rewrite draws_after_count. cbn [draws after_draw].
      replace (S (draws w) + j)%nat with (draws w + S j)%nat by lia.
      replace (attempts + 1 + Z.of_nat j) with (attempts + Z.of_nat (S j))
        by lia.
      do 3 f_equal.
      assert (attempts / 1000 <= (attempts + 1) / 1000)
        by (apply Z.div_le_mono; lia).
      assert ((attempts + 1) / 1000 <= (attempts + Z.of_nat (S j)) / 1000)
        by (apply Z.div_le_mono; lia).
      lia.
    + lia.
    + lia.
    + lia.
    + intros k Hk. rewrite draws_after_count in Hk.
      cbn [draws after_draw] in Hk. apply Hmiss. lia.
    + rewrite draws_after_count. cbn [draws after_draw].
      now replace (S (draws w) + j)%nat with (draws w + S j)%nat by lia.
    + exact Hends.
Qed.


(** The search of the example: with the counting source, the third attempt
    is the first whose address ends with [d4]. *)
Lemma counting_search :
  findSaltForTermination Example.counting Example.deployer
                         Example.empty_code_hash (str "d4") (Some (inject_Z 10))
                         Example.start
  = Some (Resolved (salt_at Example.counting 2)
                   (str "0xc93499704657b7884094A331E2F5B6986CAE00d4") 3,
          {| draws := 3; yields := 0 |}).
Proof. vm_compute. reflexivity. Qed.

(** X7.  First hit wins.  When the search returns a result after [n]
    attempts, its salt is the one drawn at the [n]-th attempt and each of
    the [n - 1] attempts before derived an address that does not end with
    the termination. *)
Theorem first_hit_wins
        (env : Env) (d h t : string) (maxAttempts : option number) (w w' : World)
        (salt address : string) (n : Z) :
  findSaltForTermination env d h t maxAttempts w
  = Some (Resolved salt address n, w') ->
  n = Z.of_nat (draws w' - draws w)
  /\ salt = salt_at env (draws w' - 1)
  /\ forall k, (draws w <= k < draws w' - 1)%nat ->
               misses env d h (toLowerCase t) k.
Proof.
  intros Hrun. unfold findSaltForTermination in Hrun.
  pose proof (search_loop_sound _ _ _ _ _ _ _ _ _ _ Hrun)
    as (_ & _ & Hn & _ & Hsalt & _).
  split; [lia|]. split; [exact Hsalt|].
  eapply search_loop_first_hit, Hrun.
Qed.

Lemma first_hit_wins_witness :
  findSaltForTermination Example.counting Example.deployer
                         Example.empty_code_hash (str "d4") (Some (inject_Z 10))
                         Example.start
  = Some (Resolved (salt_at Example.counting 2)
                   (str "0xc93499704657b7884094A331E2F5B6986CAE00d4") 3,
          {| draws := 3; yields := 0 |})
  /\ 3 = Z.of_nat (3 - 0)
  /\ salt_at Example.counting 2 = salt_at Example.counting (3 - 1)
  /\ forall k, (0 <= k < 3 - 1)%nat ->
               misses Example.counting Example.deployer
                      Example.empty_code_hash (toLowerCase (str "d4")) k.
Proof.
  split; [exact counting_search|].
  exact (first_hit_wins _ _ _ _ _ _ _ _ _ _ counting_search).
Defined.

(** X8.  The search finds the first hit.  When the [j] attempts from the
    current read on miss, the next one derives an address ending with the
    termination, and [j] is below the cap, the search returns exactly that
    salt and address with [attempts = j + 1], having drawn [j + 1] salts
    and yielded [j / 1000] times (rounded down). *)
Theorem search_finds_first_hit
        (env : Env) (d h t address : string) (cap : Z) (w : World) (j : nat) :
  Z.of_nat j < cap ->
  (forall k, (draws w <= k < draws w + j)%nat ->
             misses env d h (toLowerCase t) k) ->
  calculateCREATE2Address d (salt_at env (draws w + j)) h = Ok address ->
  endsWith (toLowerCase address) (toLowerCase t) = true ->
  findSaltForTermination env d h t (Some (inject_Z cap)) w
  = Some (Resolved (salt_at env (draws w + j)) address (Z.of_nat j + 1),
          after_attempts w j).
Proof.
  intros Hcap Hmiss Hcalc Hends. rewrite findSaltForTermination_unfold.
  rewrite (search_loop_hits env d h (toLowerCase t) (inject_Z cap) address j);
    rewrite ?Qceiling_Z; try assumption; try lia.
  now rewrite Z.add_0_l, Z.sub_0_r.
Qed.

Lemma counting_misses (k : nat) :
  (0 <= k < 0 + 2)%nat ->
  misses Example.counting Example.deployer Example.empty_code_hash
         (toLowerCase (str "d4")) k.
Proof.
  intros Hk. pose proof counting_search as Hrun.
  rewrite findSaltForTermination_unfold in Hrun.
  eapply search_loop_first_hit; [exact Hrun|]. cbn [draws Example.start]. lia.
Qed.

Lemma counting_hit :
  calculateCREATE2Address Example.deployer (salt_at Example.counting (0 + 2))
                          Example.empty_code_hash
  = Ok (str "0xc93499704657b7884094A331E2F5B6986CAE00d4").
Proof.
  pose proof counting_search as Hrun.
  rewrite findSaltForTermination_unfold in Hrun.
  apply search_loop_sound in Hrun. apply Hrun.
Qed.

Lemma search_finds_first_hit_witness :
  2 < 10
  /\ endsWith (toLowerCase (str "0xc93499704657b7884094A331E2F5B6986CAE00d4"))
              (toLowerCase (str "d4")) = true
  /\ findSaltForTermination Example.counting Example.deployer
                            Example.empty_code_hash (str "d4") (Some (inject_Z 10))
                            Example.start
     = Some (Resolved (salt_at Example.counting (0 + 2))
                      (str "0xc93499704657b7884094A331E2F5B6986CAE00d4")
                      (2 + 1),
             after_attempts Example.start 2).
Proof.
  assert (Hcap : Z.of_nat 2 < 10) by lia.
  assert (Hends :
            endsWith
              (toLowerCase (str "0xc93499704657b7884094A331E2F5B6986CAE00d4"))
              (toLowerCase (str "d4")) = true) by reflexivity.
  split; [lia|]. split; [exact Hends|].
  exact (search_finds_first_hit
           Example.counting Example.deployer Example.empty_code_hash (str "d4")
           (str "0xc93499704657b7884094A331E2F5B6986CAE00d4") 10 Example.start
           2 Hcap counting_misses counting_hit Hends).
Defined.

Lemma calculateCREATE2Address_ok_inv (d s h address : string) :
  calculateCREATE2Address d s h = Ok address ->
  exists bd bs bh,
    Ethers.arrayify d = Ok bd /\ Ethers.arrayify s = Ok bs
    /\ Ethers.arrayify h = Ok bh.
Proof.
  rewrite calculateCREATE2Address_concat. cbn [Ethers.concat].
  change (Ethers.arrayify (str "0xff")) with (@Ok (list Z) [255]).
  destruct (Ethers.arrayify d) as [bd | ed]; [|discriminate].
  destruct (Ethers.arrayify s) as [bs | es]; [|discriminate].
  destruct (Ethers.arrayify h) as [bh | eh]; [|discriminate].
  eauto 7.
Qed.

Lemma calculateCREATE2Address_ok_intro (d s h : string) (bd bs bh : list Z) :
  Ethers.arrayify d = Ok bd -> Ethers.arrayify s = Ok bs ->
  Ethers.arrayify h = Ok bh ->
  exists address, calculateCREATE2Address d s h = Ok address.
Proof.
  intros Hd Hs Hh. rewrite calculateCREATE2Address_concat.
  rewrite (concat_create2 d s h bd bs bh Hd Hs Hh). eauto.
Qed.

(** What the formula throws for a valid salt is decided by the deployer
    and the hash. *)
Lemma calculateCREATE2Address_throw_salt (d s s' h : string) (e : exn)
      (bs bs' : list Z) :
  Ethers.arrayify s = Ok bs -> Ethers.arrayify s' = Ok bs' ->
  calculateCREATE2Address d s h = Throw e ->
  calculateCREATE2Address d s' h = Throw e.
Proof.
  intros Hs Hs'. rewrite !calculateCREATE2Address_concat.
  cbn [Ethers.concat]. rewrite Hs, Hs'.
  change (Ethers.arrayify (str "0xff")) with (@Ok (list Z) [255]).
  destruct (Ethers.arrayify d) as [bd | ed]; [|intros H; exact H].
  destruct (Ethers.arrayify h) as [bh | eh]; cbn [JS.bind];
    [discriminate | intros H; exact H].
Qed.

(** An argument error can only come from the first attempt of a run. *)
Lemma search_loop_argument_error (env : Env) (d h t : string)
      (maxAttempts : number) (fuel : nat) :
  forall (attempts : Z) (w w' : World) (reason value : string),
    search_loop env fuel d h t maxAttempts attempts w
    = Some (Rejected (ArgumentError reason value), w') ->
    w' = after_draw w
    /\ calculateCREATE2Address d (salt_at env (draws w)) h
       = Throw (ArgumentError reason value).
Proof.
  induction fuel as [|fuel IH]; intros attempts w w' reason value;
    [discriminate|].
  rewrite search_loop_step.
  destruct (attempts <? (Qceiling maxAttempts)); [|discriminate].
  destruct (calculateCREATE2Address _ _ _) as [address | e] eqn:Hcalc.
  - destruct (endsWith _ _); [discriminate|].
    intros Hrun. apply IH in Hrun as [_ Hthrow].
    eapply calculateCREATE2Address_throw_salt in Hthrow;
      [rewrite Hcalc in Hthrow; discriminate | apply salt_at_arrayify
       | apply salt_at_arrayify].
  - intros [= -> <-]. auto.
Qed.


(** X10.  The salt of a result is a 32-byte value in canonical form:
    ["0x"] followed by 64 lower-case hex digits, which [arrayify] reads back
    as the 32 bytes, most significant first, of the number the random source
    gave at that attempt. *)
Theorem mined_salt_is_32_bytes
        (env : Env) (d h t : string) (maxAttempts : option number) (w w' : World)
        (salt address : string) (n : Z) :
  findSaltForTermination env d h t maxAttempts w
  = Some (Resolved salt address n, w') ->
  let bytes := Node.be_bytes 32 (entropy env (draws w' - 1)) in
  salt = str "0x" ++ Hex.hex_of_bytes bytes
  /\ length salt = 66%nat
  /\ toLowerCase salt = salt
  /\ Ethers.arrayify salt = Ok bytes
  /\ length bytes = 32%nat
  /\ Forall is_byte bytes.
Proof.
  intros Hrun bytes. unfold findSaltForTermination in Hrun.
  apply search_loop_sound in Hrun as (_ & _ & _ & _ & -> & _).
  fold bytes. unfold salt_at, Node.toString_hex. fold bytes.
  assert (Hlen : length bytes = 32%nat) by apply be_bytes_length.
  assert (Hbytes : Forall is_byte bytes) by apply be_bytes_are_bytes.
  split; [reflexivity|]. split; [|split; [|split; [|split; assumption]]].
  - rewrite str_0x_app. cbn [length]. now rewrite hex_of_bytes_length, Hlen.
  - change (toLowerCase (str "0x" ++ Hex.hex_of_bytes bytes))
      with (str "0x" ++ toLowerCase (Hex.hex_of_bytes bytes)).
    now rewrite toLowerCase_lower_hex by apply hex_of_bytes_lower.
  - now apply arrayify_hex_of_bytes.
Qed.

Lemma mined_salt_is_32_bytes_witness :
  findSaltForTermination Example.counting Example.deployer
                         Example.empty_code_hash (str "d4") (Some (inject_Z 10))
                         Example.start
  = Some (Resolved (salt_at Example.counting 2)
                   (str "0xc93499704657b7884094A331E2F5B6986CAE00d4") 3,
          {| draws := 3; yields := 0 |})
  /\ salt_at Example.counting 2
     = str "0x0000000000000000000000000000000000000000000000000000000000000002"
  /\ Ethers.arrayify (salt_at Example.counting 2)
     = Ok (Node.be_bytes 32 2).
Proof.
  split; [exact counting_search|]. split; [reflexivity|].
  exact (proj1 (proj2 (proj2 (proj2
           (mined_salt_is_32_bytes _ _ _ _ _ _ _ _ _ _ counting_search))))).
Defined.

(** X11.  A deployer or hash that is not hex data is not caught before the
    search: with a positive cap the first attempt draws a salt, the formula
    throws the argument error of the first such argument, and the call is
    rejected with it after exactly one draw and no yield.  The handler
    answers an accepted request of that kind with status 500 and the
    message of that error, which is the one the ethers logger builds: the
    reason followed by the argument name [value], the offending text as
    JSON, the code [INVALID_ARGUMENT] and the version of the bytes
    package. *)
Theorem malformed_argument_fails_first_attempt
        (env : Env) (d h t : string) (cap : Z) (w : World) :
  0 < cap ->
  ~ (hex_data d /\ hex_data h) ->
  exists e,
    is_argument_error e
    /\ (Ethers.arrayify d = Throw e \/ Ethers.arrayify h = Throw e)
    /\ (exists reason value,
          e = ArgumentError reason value
          /\ (value = d \/ value = h)
          /\ message (logger_version env) e
             = reason ++ str " (argument=" ++ JSON_stringify (str "value")
               ++ str ", value=" ++ JSON_stringify value
               ++ str ", code=INVALID_ARGUMENT, version=bytes/"
               ++ logger_version env (str "bytes") ++ str ")")
    /\ findSaltForTermination env d h t (Some (inject_Z cap)) w
       = Some (Rejected e, after_draw w)
    /\ forall body : CalculateAddressRequest,
         accepted body ->
         text (req_deployerAddress body) = d ->
         text (req_bytecodeHash body) = h ->
         req_maxAttempts body = Some (inject_Z cap) ->
         post_calculate_address env body w
         = Some ({| status := 500;
                    json := Failure (message (logger_version env) e) |},
                 after_draw w).
Proof.
  intros Hcap Hbad.
  assert (Hthrow : exists e,
             (Ethers.arrayify d = Throw e \/ Ethers.arrayify h = Throw e)
             /\ forall s bs, Ethers.arrayify s = Ok bs ->
                             calculateCREATE2Address d s h = Throw e).
  { destruct (Ethers.arrayify d) as [bd | ed] eqn:Hd.
    - destruct (Ethers.arrayify h) as [bh | eh] eqn:Hh.
      + exfalso. apply Hbad. unfold hex_data.
        rewrite <- !arrayify_ok_iff. eauto.
      + exists eh. split; [auto|]. intros s bs Hs.
        rewrite calculateCREATE2Address_concat. cbn [Ethers.concat].
        change (Ethers.arrayify (str "0xff")) with (@Ok (list Z) [255]).
        now rewrite Hd, Hs, Hh.
    - exists ed. split; [auto|]. intros s bs Hs.
      rewrite calculateCREATE2Address_concat. cbn [Ethers.concat].
      change (Ethers.arrayify (str "0xff")) with (@Ok (list Z) [255]).
      now rewrite Hd. }
  destruct Hthrow as (e & Hwhich & Hcalc).
  assert (Hrun : forall t' c, 0 < c ->
            findSaltForTermination env d h t' (Some (inject_Z c)) w
            = Some (Rejected e, after_draw w)).
  { intros t' c Hc.
    rewrite findSaltForTermination_unfold, search_loop_step, Qceiling_Z.
    destruct (Z.ltb_spec 0 c) as [_ | Hge]; [|lia].
    now rewrite (Hcalc _ _ (salt_at_arrayify env (draws w))). }
  exists e.
  split; [|split; [exact Hwhich|split; [|split; [now apply Hrun|]]]].
  - destruct Hwhich as [H | H]; apply arrayify_throws in H as [-> | ->];
      exact I.
  - destruct Hwhich as [H | H]; apply arrayify_throws in H as [-> | ->];
      eexists _, _; (split; [reflexivity|]);
      (split; [auto | reflexivity]).
  - intros body Hacc <- <- Hmax.
    rewrite post_calculate_address_accepted by exact Hacc. cbv zeta.
    rewrite Hmax, Math_min_integer, Hrun by lia. reflexivity.
Qed.

Lemma malformed_argument_fails_first_attempt_witness :
  let body :=
    {| req_deployerAddress := Some (str "Ab5801a7");
       req_bytecodeHash := Some Example.empty_code_hash;
       req_desiredTermination := Some (str "d4");
       req_maxAttempts := Some (inject_Z 10) |} in
  let e := ArgumentError (str "invalid arrayify value") (str "Ab5801a7") in
  (0 < 10 /\ Ethers.isHexString (str "Ab5801a7") = false /\ accepted body)
  /\ findSaltForTermination Example.counting (str "Ab5801a7")
                            Example.empty_code_hash (str "d4")
                            (Some (inject_Z 10)) Example.start
     = Some (Rejected e, {| draws := 1; yields := 0 |})
  /\ post_calculate_address Example.counting body Example.start
     = Some ({| status := 500;
                json := Failure
                          (str "invalid arrayify value (argument="
                           ++ [double_quote] ++ str "value" ++ [double_quote]
                           ++ str ", value="
                           ++ [double_quote] ++ str "Ab5801a7" ++ [double_quote]
                           ++ str ", code=INVALID_ARGUMENT, version=bytes/5.7.0)") |},
             {| draws := 1; yields := 0 |}).
Proof.
  intros body e.
  assert (Hcap : 0 < 10) by lia.
  assert (Hacc : accepted body) by (repeat split; cbn; lia).
  assert (Hbad : ~ (hex_data (str "Ab5801a7")
                    /\ hex_data Example.empty_code_hash))
    by (intros [[Hhex _] _]; discriminate Hhex).
  split; [repeat split; try assumption; apply Hacc|].
  destruct (malformed_argument_fails_first_attempt
              Example.counting (str "Ab5801a7") Example.empty_code_hash
              (str "d4") 10 Example.start Hcap Hbad)
    as (e' & _ & Hwhich & _ & Hrun & Hhandler).
  assert (He : e' = e).
  { destruct Hwhich as [H | H]; vm_compute in H;
      [now injection H as <- | discriminate H]. }
  rewrite He in Hrun, Hhandler.
  split; [exact Hrun|].
  exact (Hhandler body Hacc eq_refl eq_refl eq_refl).
Defined.

(** X12.  With a deployer and a hash that are hex data, the search never
    fails with an argument error: it returns a result or throws the
    max-attempts error. *)
Theorem well_formed_arguments_never_throw
        (env : Env) (d h t : string) (cap : Z) (w : World) :
  hex_data d -> hex_data h ->
  exists out w',
    findSaltForTermination env d h t (Some (inject_Z cap)) w
    = Some (out, w')
    /\ ((exists salt address n, out = Resolved salt address n)
        \/ out = Rejected (Error max_attempts_message)).
Proof.
  intros Hd Hh.
  apply arrayify_ok_iff in Hd as [bd Hd]. apply arrayify_ok_iff in Hh as [bh Hh].
  destruct (findSaltForTermination_total env d h t (Some (inject_Z cap)) w)
    as (out & w' & Hrun).
  exists out, w'. split; [exact Hrun|].
  rewrite findSaltForTermination_unfold in Hrun.
  destruct out as [salt address n | [reason value | m]].
  - left. eauto.
  - exfalso. apply search_loop_argument_error in Hrun as [_ Hthrow].
    destruct (calculateCREATE2Address_ok_intro
                d (salt_at env (draws w)) h _ _ _ Hd
                (salt_at_arrayify env (draws w)) Hh) as [address Hok].
    congruence.
  - right. apply search_loop_sound in Hrun as (_ & _ & -> & _). reflexivity.
Qed.

Lemma well_formed_arguments_never_throw_witness :
  (hex_data Example.deployer /\ hex_data Example.empty_code_hash)
  /\ exists out w',
       findSaltForTermination Example.counting Example.deployer
                              Example.empty_code_hash (str "d4") (Some (inject_Z 10))
                              Example.start
       = Some (out, w')
       /\ ((exists salt address n, out = Resolved salt address n)
           \/ out = Rejected (Error max_attempts_message)).
Proof.
  assert (Hd : hex_data Example.deployer) by (split; reflexivity).
  assert (Hh : hex_data Example.empty_code_hash) by (split; reflexivity).
  split; [split; assumption|].
  exact (well_formed_arguments_never_throw
           Example.counting Example.deployer Example.empty_code_hash
           (str "d4") 10 Example.start Hd Hh).
Defined.

(** ** The handler of /calculate-address, further *)

Lemma accepted_dec (body : CalculateAddressRequest) :
  let checks :=
    (falsy (req_deployerAddress body) || falsy (req_bytecodeHash body)
     || falsy (req_desiredTermination body))
    || ((length (clean (text (req_desiredTermination body))) =? 0)%nat
        || (8 <? length (clean (text (req_desiredTermination body))))%nat) in
  accepted body <-> checks = false.
Proof.
  cbv zeta. unfold accepted.
  destruct (falsy (req_deployerAddress body));
    destruct (falsy (req_bytecodeHash body));
    destruct (falsy (req_desiredTermination body)); cbn [orb];
    try (split; [intros (? & ? & ? & ?) | intros ?]; discriminate).
  destruct (Nat.eqb_spec (length (clean (text (req_desiredTermination body)))) 0);
    destruct (Nat.ltb_spec 8 (length (clean (text (req_desiredTermination body)))));
    cbn [orb]; split; try discriminate; try (intros (_ & _ & _ & ?); lia).
  intros _. repeat split; lia.
Qed.

(** X13.  /calculate-address always answers, with status 400, 200 or 500.
    It answers 400 exactly when the request is not accepted (a required
    field missing or empty, or a cleaned termination of length 0 or above
    8), and then it has drawn no salt; every accepted request is searched
    and answered 200 or 500. *)
Theorem calculate_address_status
        (env : Env) (body : CalculateAddressRequest) (w : World) :
  exists response w',
    post_calculate_address env body w = Some (response, w')
    /\ ((~ accepted body /\ status response = 400 /\ w' = w
         /\ exists error, json response = Failure error)
        \/ (accepted body /\ (draws w <= draws w')%nat
            /\ ((status response = 200
                 /\ exists salt address attempts termination,
                      json response = Mined salt address attempts termination)
                \/ (status response = 500
                    /\ exists error, json response = Failure error)))).
Proof.
  pose proof (accepted_dec body) as Hdec. cbv zeta in Hdec.
  unfold post_calculate_address. cbv zeta.
  destruct (falsy (req_deployerAddress body) || falsy (req_bytecodeHash body)
            || falsy (req_desiredTermination body)).
  { eexists _, w. split; [reflexivity|]. left. cbn [status json].
    repeat split; eauto. intros Hacc. apply Hdec in Hacc. discriminate. }
  destruct ((length (clean (text (req_desiredTermination body))) =? 0)%nat
            || (8 <? length (clean (text (req_desiredTermination body))))%nat).
  { eexists _, w. split; [reflexivity|]. left. cbn [status json].
    repeat split; eauto. intros Hacc. apply Hdec in Hacc. discriminate. }
  assert (Hacc : accepted body) by now apply Hdec.
  destruct (findSaltForTermination_total
              env (text (req_deployerAddress body))
              (text (req_bytecodeHash body))
              (clean (text (req_desiredTermination body)))
              (Some (Math_min match req_maxAttempts body with
                              | Some m => m
                              | None => inject_Z 100000
                              end (inject_Z 1000000))) w)
    as (out & w' & Hrun).
  rewrite Hrun.
  pose proof Hrun as Hsound. unfold findSaltForTermination in Hsound.
  apply search_loop_sound in Hsound as (Hle & _ & _).
  destruct out as [salt address n | e]; eexists _, w';
    (split; [reflexivity|]); right; cbn [status json];
    (split; [exact Hacc|]); (split; [exact Hle|]); [left | right];
    split; eauto.
Qed.

(** X14.  A success response is consistent end to end: it comes from an
    accepted request, its [termination] is the cleaned form of the one
    asked for (1 to 8 characters of [0-9a-f]), its address is the CREATE2
    address of its salt for the given deployer and hash and ends, in lower
    case, with that termination, and its [attempts] is the number of salts
    drawn: at least 1, at most [min(maxAttempts, 1000000)] rounded up to an
    integer (with [maxAttempts] 100000 when absent), and the attempt that
    hit started below that cap. *)
Theorem calculate_address_success
        (env : Env) (body : CalculateAddressRequest) (w w' : World)
        (response : Response) (salt address termination : string)
        (attempts : Z) :
  post_calculate_address env body w = Some (response, w') ->
  json response = Mined salt address attempts termination ->
  let maxAttempts :=
    match req_maxAttempts body with
    | Some m => m
    | None => inject_Z 100000
    end in
  let clamped := Math_min maxAttempts (inject_Z 1000000) in
  status response = 200
  /\ accepted body
  /\ termination = clean (text (req_desiredTermination body))
  /\ valid_termination termination
  /\ calculateCREATE2Address (text (req_deployerAddress body)) salt
                             (text (req_bytecodeHash body))
     = Ok address
  /\ endsWith (toLowerCase address) termination = true
  /\ attempts = Z.of_nat (draws w' - draws w)
  /\ 1 <= attempts <= Qceiling clamped
  /\ attempts <= 1000000
  /\ (inject_Z (attempts - 1) < clamped)%Q.
Proof.
  intros Hpost Hjson maxAttempts clamped.
  pose proof (accepted_dec body) as Hdec. cbv zeta in Hdec.
  unfold post_calculate_address in Hpost. cbv zeta in Hpost.
  fold maxAttempts in Hpost. fold clamped in Hpost.
  destruct (falsy (req_deployerAddress body) || falsy (req_bytecodeHash body)
            || falsy (req_desiredTermination body)).
  { injection Hpost as <- <-. discriminate Hjson. }
  destruct ((length (clean (text (req_desiredTermination body))) =? 0)%nat
            || (8 <? length (clean (text (req_desiredTermination body))))%nat).
  { injection Hpost as <- <-. discriminate Hjson. }
  assert (Hacc : accepted body) by now apply Hdec.
  destruct (findSaltForTermination _ _ _ _ _ _) as [[out w'']|] eqn:Hrun;
    [|discriminate].
  destruct out as [salt' address' n | e]; injection Hpost as <- <-;
    [|discriminate Hjson].
  cbn [json] in Hjson. injection Hjson as <- <- <- <-.
  unfold findSaltForTermination in Hrun.
  apply search_loop_sound in Hrun
    as (_ & _ & Hn & Hrange & _ & Hcalc & Hends).
  rewrite (toLowerCase_lower_hex _ (clean_lower_hex _)) in Hends.
  assert (Hclamp : Qceiling clamped = Z.min (Qceiling maxAttempts) 1000000)
    by apply Qceiling_Math_min.
  destruct Hacc as (Hd & Hh & Ht & Hlen).
  split; [reflexivity|]. split; [repeat split; assumption || lia|].
  split; [reflexivity|]. split; [split; [apply clean_lower_hex | lia]|].
  split; [exact Hcalc|]. split; [exact Hends|]. split; [lia|].
  split; [lia|]. split; [lia|].
  apply less_than_spec. rewrite less_than_integer. apply Z.ltb_lt. lia.
Qed.

Lemma calculate_address_success_witness :
  let body := Example.request (str "D-4") 10 in
  let response :=
    {| status := 200;
       json := Mined (salt_at Example.counting 2)
                     (str "0xc93499704657b7884094A331E2F5B6986CAE00d4") 3
                     (str "d4") |} in
  post_calculate_address Example.counting body Example.start
  = Some (response, {| draws := 3; yields := 0 |})
  /\ str "d4" = clean (str "D-4")
  /\ valid_termination (str "d4")
  /\ endsWith (toLowerCase (str "0xc93499704657b7884094A331E2F5B6986CAE00d4"))
              (str "d4") = true
  /\ 1 <= 3 <= Qceiling (Math_min (inject_Z 10) (inject_Z 1000000)).
Proof.
  intros body response.
  assert (Hacc : accepted body) by (repeat split; cbn; lia).
  assert (Hpost : post_calculate_address Example.counting body Example.start
                  = Some (response, {| draws := 3; yields := 0 |})).
  { rewrite post_calculate_address_accepted by exact Hacc. cbv zeta.
    change (clean (text (req_desiredTermination body))) with (str "d4").
    change (Math_min match req_maxAttempts body with
                     | Some m => m
                     | None => inject_Z 100000
                     end (inject_Z 1000000)) with (inject_Z 10).
    change (text (req_deployerAddress body)) with Example.deployer.
    change (text (req_bytecodeHash body)) with Example.empty_code_hash.
    unfold number. rewrite counting_search. reflexivity. }
  split; [exact Hpost|].
  pose proof (calculate_address_success
                Example.counting body Example.start _ response _ _ _ _
                Hpost eq_refl) as H.
  cbv zeta in H. destruct H as (_ & _ & Ht & Hv & _ & He & _ & Hr & _).
  repeat split; try assumption; apply Hv || apply Hr.
Defined.

(** X15.  A request without [maxAttempts] is handled exactly as one with
    [maxAttempts] 100000: an accepted one is searched with the cap 100000
    and answered from the outcome of that search, so at most 100000 salts
    are drawn, and exactly 100000 when every attempt misses. *)
Theorem calculate_address_default_cap
        (env : Env) (deployerAddress bytecodeHash desiredTermination : option string)
        (w : World) :
  let body :=
    {| req_deployerAddress := deployerAddress;
       req_bytecodeHash := bytecodeHash;
       req_desiredTermination := desiredTermination;
       req_maxAttempts := None |} in
  post_calculate_address env body w
  = post_calculate_address
      env {| req_deployerAddress := deployerAddress;
             req_bytecodeHash := bytecodeHash;
             req_desiredTermination := desiredTermination;
             req_maxAttempts := Some (inject_Z 100000) |} w
  /\ (exists response w',
        post_calculate_address env body w = Some (response, w')
        /\ (draws w <= draws w')%nat
        /\ Z.of_nat (draws w' - draws w) <= 100000
        /\ (accepted body ->
            exists out,
              findSaltForTermination
                env (text deployerAddress) (text bytecodeHash)
                (clean (text desiredTermination))
                (Some (inject_Z 100000)) w
              = Some (out, w')
              /\ response =
                 match out with
                 | Resolved salt address attempts =>
                     {| status := 200;
                        json := Mined salt address attempts
                                      (clean (text desiredTermination)) |}
                 | Rejected error =>
                     {| status := 500;
                        json := Failure (message (logger_version env) error) |}
                 end))
  /\ (accepted body ->
      (forall k, (draws w <= k < draws w + Z.to_nat 100000)%nat ->
                 misses env (text deployerAddress) (text bytecodeHash)
                        (toLowerCase (clean (text desiredTermination))) k) ->
      post_calculate_address env body w
      = Some ({| status := 500; json := Failure max_attempts_message |},
              {| draws := draws w + Z.to_nat 100000;
                 yields := yields w + 100 |})).
Proof.
  intros body. split; [reflexivity|]. split.
  - unfold post_calculate_address, accepted. cbv zeta.
    cbn [body req_deployerAddress req_bytecodeHash req_desiredTermination
         req_maxAttempts].
    change (Math_min (inject_Z 100000) (inject_Z 1000000))
      with (inject_Z 100000).
    destruct (falsy deployerAddress || falsy bytecodeHash
              || falsy desiredTermination) eqn:Hfalsy.
    { eexists _, w. split; [reflexivity|]. repeat split; try lia.
      intros (H1 & H2 & H3 & _). rewrite H1, H2, H3 in Hfalsy. discriminate. }
    destruct ((length (clean (text desiredTermination)) =? 0)%nat
              || (8 <? length (clean (text desiredTermination)))%nat) eqn:Hlen.
    { eexists _, w. split; [reflexivity|]. repeat split; try lia.
      intros (_ & _ & _ & H). apply orb_true_iff in Hlen as [E | E];
        [apply Nat.eqb_eq in E | apply Nat.ltb_lt in E]; lia. }
    destruct (findSaltForTermination_total
                env (text deployerAddress) (text bytecodeHash)
                (clean (text desiredTermination)) (Some (inject_Z 100000)) w)
      as (out & w' & Hrun).
    unfold number in *. rewrite Hrun.
    pose proof Hrun as Hsound. rewrite findSaltForTermination_unfold in Hsound.
    apply search_loop_sound in Hsound as (Hle & Hbound & _).
    rewrite Qceiling_Z in Hbound.
    destruct out as [salt address n | e]; eexists _, w';
      (split; [reflexivity|]); (split; [exact Hle|]); (split; [lia|]);
      intros _; eauto.
  - intros Hacc Hmiss.
    exact (post_calculate_address_exhausts
             env {| req_deployerAddress := deployerAddress;
                    req_bytecodeHash := bytecodeHash;
                    req_desiredTermination := desiredTermination;
                    req_maxAttempts := Some (inject_Z 100000) |}
             (inject_Z 100000) w Hacc eq_refl Hmiss).
Qed.

Lemma calculate_address_default_cap_witness :
  let body :=
    {| req_deployerAddress := Some Example.deployer;
       req_bytecodeHash := Some Example.empty_code_hash;
       req_desiredTermination := Some (str "ffffffff");
       req_maxAttempts := None |} in
  accepted body
  /\ post_calculate_address Example.stuck_cancelling body Example.start
     = Some ({| status := 500; json := Failure max_attempts_message |},
             {| draws := draws Example.start + Z.to_nat 100000;
                yields := yields Example.start + 100 |}).
Proof.
  intros body.
  assert (Hacc : accepted body) by (repeat split; cbn; lia).
  split; [exact Hacc|].
  destruct (calculate_address_default_cap
              Example.stuck_cancelling (Some Example.deployer)
              (Some Example.empty_code_hash) (Some (str "ffffffff"))
              Example.start) as (_ & _ & Hexhausts).
  apply Hexhausts; [exact Hacc|].
  intros k _. apply stuck_source_misses.
Defined.

(** ** Normalising a termination *)

Lemma filter_all (A : Type) (f : A -> bool) (l : list A) :
  forallb f l = true -> filter f l = l.
Proof.
  induction l as [|a l IH]; [reflexivity|].
  cbn [forallb filter]. intros H. apply andb_true_iff in H as [Ha Hl].
  now rewrite Ha, IH.
Qed.

Lemma clean_of_lower_hex (s : string) :
  forallb is_lower_hex s = true -> clean s = s.
Proof.
  intros H. unfold clean. rewrite toLowerCase_lower_hex by exact H.
  now apply filter_all.
Qed.

Lemma clean_app (s1 s2 : string) : clean (s1 ++ s2) = clean s1 ++ clean s2.
Proof. unfold clean, toLowerCase. now rewrite map_app, filter_app. Qed.

(** X16.  The normalisation of a termination (lower-case, then drop every
    character outside [0-9a-f]) keeps only hex digits, never lengthens,
    ignores letter case, is the identity on text that is already lower-case
    hex and so idempotent, and works piecewise: separators and other
    characters may stand anywhere. *)
Theorem clean_normalises (s s' : string) :
  forallb is_lower_hex (clean s) = true
  /\ (length (clean s) <= length s)%nat
  /\ clean (toLowerCase s) = clean s
  /\ clean (map char_toUpperCase s) = clean s
  /\ clean (clean s) = clean s
  /\ clean (s ++ s') = clean s ++ clean s'
  /\ (forallb is_lower_hex s = true <-> clean s = s).
Proof.
  split; [apply clean_lower_hex|]. split.
  { unfold clean, toLowerCase.
    rewrite <- (length_map char_toLowerCase s). apply filter_length_le. }
  split; [unfold clean; now rewrite toLowerCase_idempotent|]. split.
  { unfold clean, toLowerCase. rewrite map_map. f_equal.
    apply map_ext. intros c. apply toUpperCase_toLowerCase. }
  split; [apply clean_of_lower_hex, clean_lower_hex|].
  split; [apply clean_app|]. split.
  - apply clean_of_lower_hex.
  - intros <-. apply clean_lower_hex.
Qed.

(** X17.  A ["0x"] prefix typed before a termination is not removed as a
    prefix: its [x] is dropped and its [0] is kept as a hex digit, so the
    cleaned termination is one character longer than the digits after the
    prefix.  /validate-termination reports it with that leading [0], valid
    when at most 7 digits follow; /calculate-address rejects it with 400
    when 8 or more digits follow. *)
Theorem hex_prefix_is_kept
        (env : Env) (deployerAddress bytecodeHash : option string)
        (maxAttempts : option number) (digits : string) (w : World) :
  let termination := str "0x" ++ digits in
  clean termination = "0"%char :: clean digits
  /\ (exists difficulty estimatedTime,
        post_validate_termination (Some termination)
        = {| status := 200;
             json := Report (length (clean digits) <=? 7)%nat
                            ("0"%char :: clean digits) difficulty
                            estimatedTime 8 |})
  /\ ((8 <= length (clean digits))%nat ->
      exists error,
        post_calculate_address
          env {| req_deployerAddress := deployerAddress;
                 req_bytecodeHash := bytecodeHash;
                 req_desiredTermination := Some termination;
                 req_maxAttempts := maxAttempts |} w
        = Some ({| status := 400; json := Failure error |}, w)).
Proof.
  intros termination.
  assert (Hclean : clean termination = "0"%char :: clean digits)
    by reflexivity.
  split; [exact Hclean|]. split.
  - unfold post_validate_termination.
    change (falsy (Some termination)) with false. cbv iota zeta.
    change (text (Some termination)) with termination. rewrite Hclean.
    cbn [length Nat.eqb negb andb Nat.ltb Nat.leb].
    pose proof (clean_lower_hex termination) as Hlower.
    rewrite Hclean in Hlower. rewrite Hlower. cbn [andb].
    destruct (length (clean digits) <=? 7)%nat; [|eauto].
    repeat match goal with
           | |- context [if ?a <? ?b then _ else _] => destruct (a <? b)
           end; eauto.
  - intros Hlong. unfold post_calculate_address. cbv zeta.
    cbn [req_deployerAddress req_bytecodeHash req_desiredTermination
         req_maxAttempts].
    destruct (falsy deployerAddress || falsy bytecodeHash
              || falsy (Some termination)); [eauto|].
    change (text (Some termination)) with termination. rewrite Hclean.
    cbn [length Nat.eqb orb].
    destruct (Nat.ltb_spec 8 (S (length (clean digits)))); [eauto | lia].
Qed.

(** ** The two handlers together *)

(** X18.  The two handlers apply the same test to a termination.
    /calculate-address always answers, and its status is other than 400
    exactly when the deployer and the hash of the request are present and
    non-empty and /validate-termination reports the termination of the
    request as valid; that report is valid exactly when the cleaned
    termination has 1 to 8 characters.  A request answered with 400 has
    drawn no salt. *)
Theorem handlers_agree_on_validity
        (env : Env) (body : CalculateAddressRequest) (w : World) :
  let termination := req_desiredTermination body in
  let reported_valid :=
    exists cleaned difficulty estimatedTime,
      post_validate_termination termination
      = {| status := 200;
           json := Report true cleaned difficulty estimatedTime 8 |} in
  (reported_valid <-> (1 <= length (clean (text termination)) <= 8)%nat)
  /\ exists response w',
       post_calculate_address env body w = Some (response, w')
       /\ (status response <> 400 <->
           falsy (req_deployerAddress body) = false
           /\ falsy (req_bytecodeHash body) = false
           /\ reported_valid)
       /\ (status response = 400 -> w' = w).
Proof.
  intros termination reported_valid.
  assert (Hvalid : reported_valid
                   <-> (1 <= length (clean (text termination)) <= 8)%nat).
  { unfold reported_valid. split.
    - intros (cleaned & difficulty & estimatedTime & Hpost).
      unfold post_validate_termination in Hpost.
      destruct (falsy termination); [discriminate|]. cbv zeta in Hpost.
      destruct (Nat.eqb_spec (length (clean (text termination))) 0) as [E | E];
        [rewrite E in Hpost; discriminate|].
      destruct (Nat.leb_spec (length (clean (text termination))) 8) as [L | L];
        [lia|].
      rewrite !andb_false_r in Hpost. discriminate.
    - intros Hlen. rewrite (validate_termination_valid termination Hlen).
      cbv zeta. eauto. }
  split; [exact Hvalid|].
  assert (Hagree : accepted body
                   <-> falsy (req_deployerAddress body) = false
                     /\ falsy (req_bytecodeHash body) = false
                     /\ reported_valid).
  { unfold accepted. fold termination. rewrite Hvalid. split.
    - intros (Hd & Hh & _ & Hlen). auto.
    - intros (Hd & Hh & Hlen). repeat split; try assumption; try lia.
      apply falsy_of_clean. lia. }
  pose proof (accepted_dec body) as Hdec. cbv zeta in Hdec.
  unfold post_calculate_address. cbv zeta.
  destruct (falsy (req_deployerAddress body) || falsy (req_bytecodeHash body)
            || falsy (req_desiredTermination body)).
  { eexists _, w. split; [reflexivity|]. cbn [status]. split; [|reflexivity].
    rewrite <- Hagree. split; [intros H; now elim H|].
    intros H. apply Hdec in H. discriminate. }
  destruct ((length (clean (text (req_desiredTermination body))) =? 0)%nat
            || (8 <? length (clean (text (req_desiredTermination body))))%nat).
  { eexists _, w. split; [reflexivity|]. cbn [status]. split; [|reflexivity].
    rewrite <- Hagree. split; [intros H; now elim H|].
    intros H. apply Hdec in H. discriminate. }
  assert (Hacc : accepted body) by now apply Hdec.
  destruct (findSaltForTermination_total
              env (text (req_deployerAddress body))
              (text (req_bytecodeHash body))
              (clean (text (req_desiredTermination body)))
              (Some (Math_min match req_maxAttempts body with
                              | Some m => m
                              | None => inject_Z 100000
                              end (inject_Z 1000000))) w)
    as (out & w' & Hrun).
  rewrite Hrun.
  destruct out as [salt address n | e]; eexists _, w';
    (split; [reflexivity|]); cbn [status];
    (split; [rewrite <- Hagree;
             split; [intros _; exact Hacc | intros _; discriminate]
            | discriminate]).
Qed.

(** X19.  The difficulty reported for a termination that is present and
    non-empty depends only on the length of its cleaned form: Very Easy for
    1, Easy for 2, Medium for 3, Hard for 4, Very Hard for 5 to 8, and
    Unknown for 0 and for more than 8. *)
Theorem difficulty_by_length (termination : option string) :
  falsy termination = false ->
  difficulty_of (post_validate_termination termination)
  = match length (clean (text termination)) with
    | 1 => str "Very Easy"
    | 2 => str "Easy"
    | 3 => str "Medium"
    | 4 => str "Hard"
    | 5 | 6 | 7 | 8 => str "Very Hard"
    | _ => str "Unknown"
    end%nat.
Proof.
  intros Hpresent. unfold post_validate_termination. rewrite Hpresent.
  cbv zeta. rewrite clean_lower_hex.
  remember (length (clean (text termination))) as L eqn:HL. clear HL.
  do 9 (destruct L as [|L]; [reflexivity|]).
  cbn [Nat.eqb negb andb Nat.ltb Nat.leb]. reflexivity.
Qed.

Lemma difficulty_by_length_witness :
  falsy (Some (str "C0:FF:EE:42")) = false
  /\ length (clean (str "C0:FF:EE:42")) = 8%nat
  /\ difficulty_of (post_validate_termination (Some (str "C0:FF:EE:42")))
     = str "Very Hard".
Proof.
  split; [reflexivity|]. split; [reflexivity|].
  exact (difficulty_by_length (Some (str "C0:FF:EE:42")) eq_refl).
Defined.
